(** * PureChef: the generation-service layer ([src/services/gemini.ts])

    A shallow embedding of the three exported functions of
    [services/gemini.ts] -- [detectIngredientsFromImage], [generateRecipes]
    and [generateRecipeImage] -- together with the parts of the JavaScript
    runtime they rely on ([String.prototype.split], [trim], [Array.join],
    [JSON.parse], object spread, [encodeURIComponent]).

    JavaScript strings are sequences of UTF-16 code units; they are modelled
    as lists of code units so that [trim] and [encodeURIComponent] see the
    same characters as the runtime does. *)

From Stdlib Require Import String Ascii NArith List Decimal DecimalNat.
From stdpp Require Import base option list numbers countable gmap.

Local Open Scope N_scope.

(** ** JavaScript strings *)

Module JS.

(** A string value: its UTF-16 code units. *)
Abbreviation jsstring := (list N).

(** A source literal (ASCII only) as a string value. *)
Definition js (s : string) : jsstring :=
  map N_of_ascii (list_ascii_of_string s).

(** The decimal rendering of an array index, as [`${idx}`] yields it. *)
Fixpoint uint_units (u : Decimal.uint) : jsstring :=
  match u with
  | Nil => []
  | D0 u' => 48 :: uint_units u'
  | D1 u' => 49 :: uint_units u'
  | D2 u' => 50 :: uint_units u'
  | D3 u' => 51 :: uint_units u'
  | D4 u' => 52 :: uint_units u'
  | D5 u' => 53 :: uint_units u'
  | D6 u' => 54 :: uint_units u'
  | D7 u' => 55 :: uint_units u'
  | D8 u' => 56 :: uint_units u'
  | D9 u' => 57 :: uint_units u'
  end.

Definition index_to_string (idx : nat) : jsstring :=
  uint_units (Nat.to_uint idx).

Definition LF : jsstring := [10].
Definition DQ : jsstring := [34].

(** [`${v}`] for a possibly undefined string. *)
Definition template_opt (v : option jsstring) : jsstring :=
  match v with
  | Some s => s
  | None => js "undefined"
  end.

(** [v || d] on a possibly undefined string: the empty string is falsy. *)
Definition or_default (v : option jsstring) (d : jsstring) : jsstring :=
  match v with
  | Some (c :: s) => c :: s
  | Some [] => d
  | None => d
  end.

(** WhiteSpace and LineTerminator code points of ECMAScript, the characters
    [String.prototype.trim] strips. *)
Definition isWhiteSpace (c : N) : bool :=
  (c =? 9) || (c =? 10) || (c =? 11) || (c =? 12) || (c =? 13) || (c =? 32)
  || (c =? 160) || (c =? 5760) || ((8192 <=? c) && (c <=? 8202))
  || (c =? 8232) || (c =? 8233) || (c =? 8239) || (c =? 8287)
  || (c =? 12288) || (c =? 65279).

Fixpoint trimStart (s : jsstring) : jsstring :=
  match s with
  | [] => []
  | c :: s' => if isWhiteSpace c then trimStart s' else c :: s'
  end.

Definition trimEnd (s : jsstring) : jsstring :=
  reverse (trimStart (reverse s)).

(** [s.trim()] *)
Definition trim (s : jsstring) : jsstring := trimEnd (trimStart s).

(** [s.split(sep)] for a separator of one code unit. *)
Fixpoint split (sep : N) (s : jsstring) : list jsstring :=
  match s with
  | [] => [[]]
  | c :: s' =>
      if c =? sep then [] :: split sep s'
      else match split sep s' with
           | seg :: segs => (c :: seg) :: segs
           | [] => [[c]]
           end
  end.

(** [xs.join(sep)] on an array of strings. *)
Fixpoint join (sep : jsstring) (xs : list jsstring) : jsstring :=
  match xs with
  | [] => []
  | [x] => x
  | x :: xs' => x ++ sep ++ join sep xs'
  end.

End JS.
Import JS.

(** ** Failures

    A rejected promise carries the exception that was thrown: one of the
    runtime's own ([JSON.parse]'s SyntaxError, the TypeError of calling a
    method that is not there, [encodeURIComponent]'s URIError) or whatever
    the service client rejected with. *)

Inductive JSError : Type :=
  | SyntaxError
  | TypeError
  | URIError
  | ApiError (message : jsstring).

Inductive Result (A : Type) : Type :=
  | Ok (a : A)
  | Err (e : JSError).
Arguments Ok {A} a.
Arguments Err {A} e.

Definition is_Err {A} (r : Result A) : bool :=
  match r with
  | Ok _ => false
  | Err _ => true
  end.

#[export] Instance Result_ret : MRet Result := fun A a => Ok a.
#[export] Instance Result_bind : MBind Result := fun A B f r =>
  match r with
  | Ok a => f a
  | Err e => Err e
  end.

(** ** JSON values and [JSON.parse] *)

Module JSON.

(** A parsed JSON value.  An object is used as a record: a finite map from
    property names to values.  A number keeps the text it was written with;
    its conversion to a double is not modelled. *)
#[local] Unset Elimination Schemes.
Inductive JSValue : Type :=
  | JNull
  | JBool (b : bool)
  | JNumber (lexeme : jsstring)
  | JString (s : jsstring)
  | JArray (elems : list JSValue)
  | JObject (props : gmap (list N) JSValue).
#[local] Set Elimination Schemes.

Inductive token : Type :=
  | TLBracket | TRBracket | TLBrace | TRBrace | TComma | TColon
  | TStr (s : jsstring)
  | TNum (lexeme : jsstring)
  | TTrue | TFalse | TNull.

(** States of the number automaton: an optional minus sign, then a single
    zero or a non-zero digit followed by digits, then optionally a point
    with at least one digit, then optionally an exponent mark with an
    optional sign and at least one digit. *)
Inductive num_state : Type :=
  | NMinus | NZero | NInt | NDot | NFrac | NExp | NExpSign | NExpDigits.

Definition isDigit (c : N) : bool := (48 <=? c) && (c <=? 57).
Definition isExpMark (c : N) : bool := (c =? 101) || (c =? 69).

Definition num_step (st : num_state) (c : N) : option num_state :=
  match st with
  | NMinus =>
      if c =? 48 then Some NZero
      else if isDigit c then Some NInt else None
  | NZero =>
      if c =? 46 then Some NDot
      else if isExpMark c then Some NExp else None
  | NInt =>
      if isDigit c then Some NInt
      else if c =? 46 then Some NDot
      else if isExpMark c then Some NExp else None
  | NDot => if isDigit c then Some NFrac else None
  | NFrac =>
      if isDigit c then Some NFrac
      else if isExpMark c then Some NExp else None
  | NExp =>
      if (c =? 43) || (c =? 45) then Some NExpSign
      else if isDigit c then Some NExpDigits else None
  | NExpSign => if isDigit c then Some NExpDigits else None
  | NExpDigits => if isDigit c then Some NExpDigits else None
  end.

Definition num_accepting (st : num_state) : bool :=
  match st with
  | NZero | NInt | NFrac | NExpDigits => true
  | NMinus | NDot | NExp | NExpSign => false
  end.

Definition hexValue (c : N) : option N :=
  if isDigit c then Some (c - 48)
  else if (97 <=? c) && (c <=? 102) then Some (c - 87)
  else if (65 <=? c) && (c <=? 70) then Some (c - 55)
  else None.

(** The character an escape [\c] stands for ([\u] is handled apart). *)
Definition escapeValue (c : N) : option N :=
  if c =? 34 then Some 34
  else if c =? 92 then Some 92
  else if c =? 47 then Some 47
  else if c =? 98 then Some 8
  else if c =? 102 then Some 12
  else if c =? 110 then Some 10
  else if c =? 114 then Some 13
  else if c =? 116 then Some 9
  else None.

(** Lexer states; string contents and number lexemes are accumulated in
    reverse. *)
Inductive lex_state : Type :=
  | LStart
  | LString (acc : jsstring)
  | LEscape (acc : jsstring)
  | LUnicode (acc : jsstring) (count : nat) (value : N)
  | LNumber (st : num_state) (acc : jsstring)
  | LLiteral (rest : jsstring) (t : token).

(** A character read between tokens. *)
Definition lex_start (c : N) : option (lex_state * list token) :=
  if (c =? 32) || (c =? 9) || (c =? 10) || (c =? 13) then Some (LStart, [])
  else if c =? 91 then Some (LStart, [TLBracket])
  else if c =? 93 then Some (LStart, [TRBracket])
  else if c =? 123 then Some (LStart, [TLBrace])
  else if c =? 125 then Some (LStart, [TRBrace])
  else if c =? 44 then Some (LStart, [TComma])
  else if c =? 58 then Some (LStart, [TColon])
  else if c =? 34 then Some (LString [], [])
  else if c =? 45 then Some (LNumber NMinus [c], [])
  else if c =? 48 then Some (LNumber NZero [c], [])
  else if isDigit c then Some (LNumber NInt [c], [])
  else if c =? 116 then Some (LLiteral (js "rue") TTrue, [])
  else if c =? 102 then Some (LLiteral (js "alse") TFalse, [])
  else if c =? 110 then Some (LLiteral (js "ull") TNull, [])
  else None.

Definition lex_step (st : lex_state) (c : N) : option (lex_state * list token) :=
  match st with
  | LStart => lex_start c
  | LString acc =>
      if c =? 34 then Some (LStart, [TStr (reverse acc)])
      else if c =? 92 then Some (LEscape acc, [])
      else if c <? 32 then None
      else Some (LString (c :: acc), [])
  | LEscape acc =>
      if c =? 117 then Some (LUnicode acc 0 0, [])
      else match escapeValue c with
           | Some x => Some (LString (x :: acc), [])
           | None => None
           end
  | LUnicode acc count value =>
      match hexValue c with
      | Some h =>
          match count with
          | 3%nat => Some (LString ((value * 16 + h) :: acc), [])
          | _ => Some (LUnicode acc (S count) (value * 16 + h), [])
          end
      | None => None
      end
  | LNumber nst acc =>
      match num_step nst c with
      | Some nst' => Some (LNumber nst' (c :: acc), [])
      | None =>
          if num_accepting nst then
            match lex_start c with
            | Some (st', ts) => Some (st', TNum (reverse acc) :: ts)
            | None => None
            end
          else None
      end
  | LLiteral rest t =>
      match rest with
      | [] => None
      | [x] => if c =? x then Some (LStart, [t]) else None
      | x :: rest' => if c =? x then Some (LLiteral rest' t, []) else None
      end
  end.

(** End of input. *)
Definition lex_end (st : lex_state) : option (list token) :=
  match st with
  | LStart => Some []
  | LNumber nst acc => if num_accepting nst then Some [TNum (reverse acc)] else None
  | _ => None
  end.

Fixpoint lex_from (st : lex_state) (s : jsstring) : option (list token) :=
  match s with
  | [] => lex_end st
  | c :: s' =>
      match lex_step st c with
      | Some (st', ts) =>
          match lex_from st' s' with
          | Some rest => Some (ts ++ rest)
          | None => None
          end
      | None => None
      end
  end.

Definition lex (s : jsstring) : option (list token) := lex_from LStart s.

(** The parser: a stack of the containers still open.  An array frame holds
    its elements in reverse; an object frame holds the properties set so far
    and the key that waits for its value. *)
Inductive frame : Type :=
  | FArray (acc : list JSValue)
  | FObject (props : gmap (list N) JSValue) (key : option jsstring).

Inductive expect : Type :=
  | EValue | EValueOrClose | EKeyOrClose | EKey | EColon | ECommaOrClose.

Inductive parse_state : Type :=
  | PRun (stack : list frame) (mode : expect)
  | PDone (v : JSValue).

(** A value is complete: it is the whole text, the next element of the
    enclosing array, or the value of the pending key (a repeated key
    overwrites the earlier value). *)
Definition push_value (v : JSValue) (stack : list frame) : option parse_state :=
  match stack with
  | [] => Some (PDone v)
  | FArray acc :: stack' => Some (PRun (FArray (v :: acc) :: stack') ECommaOrClose)
  | FObject props (Some k) :: stack' =>
      Some (PRun (FObject (<[k := v]> props) None :: stack') ECommaOrClose)
  | FObject _ None :: _ => None
  end.

Definition parse_value_token (t : token) (stack : list frame) : option parse_state :=
  match t with
  | TStr s => push_value (JString s) stack
  | TNum n => push_value (JNumber n) stack
  | TTrue => push_value (JBool true) stack
  | TFalse => push_value (JBool false) stack
  | TNull => push_value JNull stack
  | TLBracket => Some (PRun (FArray [] :: stack) EValueOrClose)
  | TLBrace => Some (PRun (FObject ∅ None :: stack) EKeyOrClose)
  | _ => None
  end.

Definition close_frame (t : token) (stack : list frame) : option parse_state :=
  match t, stack with
  | TRBracket, FArray acc :: stack' => push_value (JArray (reverse acc)) stack'
  | TRBrace, FObject props None :: stack' => push_value (JObject props) stack'
  | _, _ => None
  end.

Definition parse_key (t : token) (stack : list frame) : option parse_state :=
  match t, stack with
  | TStr k, FObject props None :: stack' =>
      Some (PRun (FObject props (Some k) :: stack') EColon)
  | _, _ => None
  end.

Definition parse_step (st : parse_state) (t : token) : option parse_state :=
  match st with
  | PDone _ => None
  | PRun stack EValue => parse_value_token t stack
  | PRun stack EValueOrClose =>
      match t with
      | TRBracket => close_frame t stack
      | _ => parse_value_token t stack
      end
  | PRun stack EKeyOrClose =>
      match t with
      | TRBrace => close_frame t stack
      | _ => parse_key t stack
      end
  | PRun stack EKey => parse_key t stack
  | PRun stack EColon =>
      match t with
      | TColon => Some (PRun stack EValue)
      | _ => None
      end
  | PRun stack ECommaOrClose =>
      match t, stack with
      | TComma, FArray _ :: _ => Some (PRun stack EValue)
      | TComma, FObject _ _ :: _ => Some (PRun stack EKey)
      | _, _ => close_frame t stack
      end
  end.

Fixpoint parse_tokens (st : parse_state) (ts : list token) : option JSValue :=
  match ts with
  | [] => match st with PDone v => Some v | PRun _ _ => None end
  | t :: ts' =>
      match parse_step st t with
      | Some st' => parse_tokens st' ts'
      | None => None
      end
  end.

(** [JSON.parse(text)]: the value of a text of the JSON grammar, a
    SyntaxError for any other text. *)
Definition parse (text : jsstring) : Result JSValue :=
  match lex text with
  | Some ts =>
      match parse_tokens (PRun [] EValue) ts with
      | Some v => Ok v
      | None => Err SyntaxError
      end
  | None => Err SyntaxError
  end.

End JSON.
Import JSON.

(** ** More of the runtime: arrays, spread, [encodeURIComponent] *)

Module Runtime.

(** The own enumerable properties of a value, which [{...v}] copies: the
    properties of an object, the indexed elements of an array, the indexed
    characters of a string, nothing for the other primitives. *)
Definition ownProperties (v : JSValue) : gmap (list N) JSValue :=
  match v with
  | JObject props => props
  | JArray elems => list_to_map (imap (fun i e => (index_to_string i, e)) elems)
  | JString s => list_to_map (imap (fun i c => (index_to_string i, JString [c])) s)
  | JNull | JBool _ | JNumber _ => ∅
  end.

(** [v.map((r, idx) => f(r, idx))] on a parsed value: only an array has a
    [map] method that can be called; on every other JSON value the call
    throws a TypeError. *)
Definition array_map {B} (f : JSValue -> nat -> B) (v : JSValue) : Result (list B) :=
  match v with
  | JArray elems => Ok (imap (fun idx r => f r idx) elems)
  | _ => Err TypeError
  end.

(** Characters [encodeURIComponent] leaves as they are: letters, digits
    and [- _ . ! ~ * ' ( )]. *)
Definition isUnreserved (c : N) : bool :=
  ((65 <=? c) && (c <=? 90)) || ((97 <=? c) && (c <=? 122))
  || ((48 <=? c) && (c <=? 57))
  || (c =? 45) || (c =? 95) || (c =? 46) || (c =? 33) || (c =? 126)
  || (c =? 42) || (c =? 39) || (c =? 40) || (c =? 41).

Definition isHighSurrogate (c : N) : bool := (55296 <=? c) && (c <=? 56319).
Definition isLowSurrogate (c : N) : bool := (56320 <=? c) && (c <=? 57343).

Definition hexDigit (n : N) : N := if n <? 10 then 48 + n else 55 + n.

(** [%XX] for one octet. *)
Definition percent (octet : N) : jsstring :=
  [37; hexDigit (octet / 16); hexDigit (octet mod 16)].

(** The UTF-8 octets of a code point. *)
Definition utf8 (cp : N) : list N :=
  if cp <? 128 then [cp]
  else if cp <? 2048 then [192 + cp / 64; 128 + cp mod 64]
  else if cp <? 65536 then
    [224 + cp / 4096; 128 + (cp / 64) mod 64; 128 + cp mod 64]
  else
    [240 + cp / 262144; 128 + (cp / 4096) mod 64; 128 + (cp / 64) mod 64;
     128 + cp mod 64].

Definition escape (cp : N) : jsstring := concat (map percent (utf8 cp)).

(** [encodeURIComponent(s)]: a surrogate that is not part of a pair makes
    it throw a URIError. *)
Fixpoint encodeURIComponent (s : jsstring) : Result jsstring :=
  match s with
  | [] => Ok []
  | c :: rest =>
      if isUnreserved c then
        r ← encodeURIComponent rest; Ok (c :: r)
      else if isLowSurrogate c then Err URIError
      else if isHighSurrogate c then
        match rest with
        | d :: rest' =>
            if isLowSurrogate d then
              r ← encodeURIComponent rest';
              Ok (escape ((c - 55296) * 1024 + (d - 56320) + 65536) ++ r)
            else Err URIError
        | [] => Err URIError
        end
      else
        r ← encodeURIComponent rest; Ok (escape c ++ r)
  end.

End Runtime.
Import Runtime.

(** ** The generation service boundary ([@google/genai]) *)

Record Blob : Type := {
  mimeType : option jsstring;
  data : option jsstring
}.

Record Part : Type := {
  part_text : option jsstring;
  inlineData : option Blob
}.

Record Content : Type := { parts : option (list Part) }.

Record Candidate : Type := { content : option Content }.

(** What the functions read of a response: its [text] and its
    [candidates]. *)
Record GenerateContentResponse : Type := {
  text : option jsstring;
  candidates : option (list Candidate)
}.

(** [Type.ARRAY], [Type.OBJECT], [Type.STRING], [Type.NUMBER] and
    [Type.BOOLEAN] schemas. *)
#[local] Unset Elimination Schemes.
Inductive Schema : Type :=
  | TypeSTRING
  | TypeNUMBER
  | TypeBOOLEAN
  | TypeARRAY (items : Schema)
  | TypeOBJECT (properties : list (string * Schema)) (required : list string).
#[local] Set Elimination Schemes.

Inductive Contents : Type :=
  | ContentsText (prompt : jsstring)
  | ContentsParts (ps : list Part).

Record ImageConfig : Type := { aspectRatio : jsstring }.

Record GenerateContentConfig : Type := {
  responseMimeType : option jsstring;
  responseSchema : option Schema;
  imageConfig : option ImageConfig
}.

Record GenerateContentParameters : Type := {
  model : jsstring;
  contents : Contents;
  config : option GenerateContentConfig
}.

Definition textPart (t : jsstring) : Part :=
  {| part_text := Some t; inlineData := None |}.

(** ** [TasteProfile], as [generateRecipes] reads it *)

Record Preferences : Type := {
  spiceLevel : jsstring;
  texture : list jsstring;
  flavorBias : list jsstring
}.

Record TasteProfile : Type := {
  lovedRecipes : list jsstring;
  dislikedRecipes : list jsstring;
  preferences : Preferences
}.

(** Modelled from the spec: the members of [RecipeMode] and [RecipeEmotion],
    which [../types] declares; at run time they are plain strings. *)
Definition RecipeMode_values : list jsstring :=
  [js "STANDARD"; js "HIGH_PROTEIN"; js "KETO"; js "UNDER_500_CAL"].

Definition RecipeEmotion_values : list jsstring :=
  [js "COMFORT"; js "LIGHT"; js "ENERGIZED"; js "COZY"; js "LAZY"; js "IMPRESS"].

(** ** The constraint blocks of [generateRecipes] *)

(** [switch(mode)]: the dietary constraint sentence
    ([compileDietaryConstraint] in the specification). *)
Definition modeConstraint (mode : jsstring) : jsstring :=
  if decide (mode = js "HIGH_PROTEIN") then
    js "CRITICAL: Every recipe must be high in protein (focus on meat, eggs, beans, or dairy provided)."
  else if decide (mode = js "KETO") then
    js "CRITICAL: Every recipe must be Ketogenic (high fat, low carb). Avoid sugars and high-starch items."
  else if decide (mode = js "UNDER_500_CAL") then
    js "CRITICAL: Every recipe must be under 500 calories per serving."
  else
    js "Provide balanced and delicious recipes.".

(** [switch(emotion)], which has no default branch: the style constraint
    sentence ([compileStyleConstraint] in the specification). *)
Definition emotionConstraint (emotion : jsstring) : jsstring :=
  if decide (emotion = js "COMFORT") then
    js "STYLE: Soul-warming, familiar, and hearty. Focus on textures that feel like a hug."
  else if decide (emotion = js "LIGHT") then
    js "STYLE: Crisp, vibrant, and clean. Focus on fresh flavors, citrus, and raw or lightly cooked elements."
  else if decide (emotion = js "ENERGIZED") then
    js "STYLE: Power-packed and balanced. Focus on high-nutrient density to provide lasting energy."
  else if decide (emotion = js "COZY") then
    js "STYLE: Slow-cooked vibes, warm spices (cinnamon, cumin, etc.), and soothing warmth."
  else if decide (emotion = js "LAZY") then
    js "STYLE: Minimum effort, maximum flavor. One-pot or 5-minute prep style. Very few steps."
  else if decide (emotion = js "IMPRESS") then
    js "STYLE: Sophisticated and gourmet. Focus on elegant presentation and unique flavor pairings to wow a guest."
  else [].

Definition tasteBlock (tasteProfile : TasteProfile) : jsstring :=
  LF
  ++ js "  USER PERSONAL PALATE (Taste Memory):" ++ LF
  ++ js "  - Loved flavor patterns: " ++ join (js ", ") (lovedRecipes tasteProfile) ++ LF
  ++ js "  - Avoided patterns: " ++ join (js ", ") (dislikedRecipes tasteProfile) ++ LF
  ++ js "  - Preferred Spice: " ++ spiceLevel (preferences tasteProfile) ++ LF
  ++ js "  - Preferred Textures: " ++ join (js ", ") (texture (preferences tasteProfile)) ++ LF
  ++ js "  - Flavor bias: " ++ join (js ", ") (flavorBias (preferences tasteProfile)) ++ LF
  ++ js "  " ++ LF
  ++ js "  ADJUSTMENT: Prioritize these preferences in the 3 generated options. If the user loves a specific style, reflect that in the " ++ DQ ++ js "Chef's Choice" ++ DQ ++ js " option." ++ LF
  ++ js "  ".

(** [tasteProfile ? `...` : ...]: the personalization block
    ([compilePersonalizationBlock] in the specification), empty without a
    profile. *)
Definition tasteContext (tasteProfile : option TasteProfile) : jsstring :=
  match tasteProfile with
  | Some p => tasteBlock p
  | None => []
  end.

Definition recipePrompt (ingredients : list jsstring) (mode emotion : jsstring)
    (tasteProfile : option TasteProfile) : jsstring :=
  js "Based on these ingredients: [" ++ join (js ", ") ingredients ++ js "], and basic pantry staples (oil, salt, pepper, water), generate 3 distinct and valid recipes. " ++ LF
  ++ js "  " ++ LF
  ++ js "  Dietary Mode: " ++ mode ++ LF
  ++ js "  " ++ modeConstraint mode ++ LF
  ++ LF
  ++ js "  User Mood/Emotion: " ++ emotion ++ LF
  ++ js "  " ++ emotionConstraint emotion ++ LF
  ++ LF
  ++ js "  " ++ tasteContext tasteProfile ++ LF
  ++ LF
  ++ js "  Strategy for the 3 recipes:" ++ LF
  ++ js "  1. " ++ DQ ++ js "Pantry Hero" ++ DQ ++ js ": A recipe using ONLY what the user has." ++ LF
  ++ js "  2. " ++ DQ ++ js "The Gap" ++ DQ ++ js ": A high-value recipe that is missing EXACTLY ONE key ingredient. This ingredient should unlock a significantly different or " ++ DQ ++ js "better" ++ DQ ++ js " meal." ++ LF
  ++ js "  3. " ++ DQ ++ js "Chef's Choice" ++ DQ ++ js ": A creative recipe using as many of the provided ingredients as possible." ++ LF
  ++ LF
  ++ js "  Nutrition Rules:" ++ LF
  ++ js "  - For each recipe, calculate the Nutrition Breakdown (Macros)." ++ LF
  ++ js "  - Use standard nutrition data (similar to USDA or Edamam)." ++ LF
  ++ js "  - If exact amount is unknown, estimate a standard portion (e.g., 50g-100g) and mark is_estimated as true." ++ LF
  ++ js "  - Return nutrition_total (sum of all ingredients) and nutrition_per_serving." ++ LF
  ++ js "  - Required macros: calories (kcal), protein_g, carbs_g, fat_g." ++ LF
  ++ LF
  ++ js "  Recipe Rules:" ++ LF
  ++ js "  - For EVERY recipe, strictly highlight if an ingredient is missing (isMissing: true)." ++ LF
  ++ js "  - Ensure instructions are clear steps." ++ LF
  ++ js "  - CRITICAL: When providing instructions for meal preparation, please include the quantity of each ingredient inside the instruction text itself. " ++ LF
  ++ js "  - Output MUST be a valid JSON array of objects following the schema.".

Definition macros : Schema :=
  TypeOBJECT
    [("calories", TypeNUMBER); ("protein_g", TypeNUMBER);
     ("carbs_g", TypeNUMBER); ("fat_g", TypeNUMBER)]%string
    [].

Definition recipeSchema : Schema :=
  TypeARRAY
    (TypeOBJECT
       [("title", TypeSTRING);
        ("description", TypeSTRING);
        ("prepTime", TypeSTRING);
        ("calories", TypeNUMBER);
        ("servings_count", TypeNUMBER);
        ("nutrition_source", TypeSTRING);
        ("is_estimated", TypeBOOLEAN);
        ("nutrition_total", macros);
        ("nutrition_per_serving", macros);
        ("ingredients",
          TypeARRAY
            (TypeOBJECT
               [("name", TypeSTRING); ("amount", TypeSTRING);
                ("isMissing", TypeBOOLEAN)]
               ["name"; "amount"; "isMissing"]));
        ("instructions", TypeARRAY TypeSTRING)]
       ["title"; "description"; "prepTime"; "calories"; "ingredients";
        "instructions"; "nutrition_total"; "nutrition_per_serving";
        "servings_count"])%string.

Definition detectPrompt : jsstring :=
  js "Identify all individual food ingredients visible in this refrigerator or pantry photo. Return only a comma-separated list of the items. Do not include containers, brands, or adjectives like 'fresh' or 'large' unless necessary.".

Definition imagePrompt (recipeTitle : jsstring) : jsstring :=
  js "A high-quality, professional, minimalist overhead food photograph of " ++ recipeTitle ++ js ". Set on a clean kitchen counter with a soft minimalist blue background. Natural morning lighting, high resolution, aesthetic and appetizing presentation.".

(** The requests the three functions send. *)
Definition detectRequest (base64Image : jsstring) : GenerateContentParameters :=
  let imagePart :=
    {| part_text := None;
       inlineData := Some {| mimeType := Some (js "image/jpeg");
                             data := Some base64Image |} |} in
  {| model := js "gemini-3-flash-preview";
     contents := ContentsParts [imagePart; textPart detectPrompt];
     config := None |}.

Definition recipeRequest (ingredients : list jsstring) (mode emotion : jsstring)
    (tasteProfile : option TasteProfile) : GenerateContentParameters :=
  {| model := js "gemini-3-flash-preview";
     contents := ContentsText (recipePrompt ingredients mode emotion tasteProfile);
     config := Some {| responseMimeType := Some (js "application/json");
                       responseSchema := Some recipeSchema;
                       imageConfig := None |} |}.

Definition imageRequest (recipeTitle : jsstring) : GenerateContentParameters :=
  {| model := js "gemini-2.5-flash-image";
     contents := ContentsParts [textPart (imagePrompt recipeTitle)];
     config := Some {| responseMimeType := None;
                       responseSchema := None;
                       imageConfig := Some {| aspectRatio := js "1:1" |} |} |}.

(** [response.candidates?.[0]?.content?.parts || []] *)
Definition firstCandidateParts (response : GenerateContentResponse) : list Part :=
  default [] (cs ← candidates response; c ← cs !! 0%nat; ct ← content c; parts ct).

(** The loop of [generateRecipeImage] over the parts: the data URI of the
    first part that has [inlineData]. *)
Fixpoint scanParts (ps : list Part) : option jsstring :=
  match ps with
  | [] => None
  | part :: rest =>
      match inlineData part with
      | Some blob => Some (js "data:image/png;base64," ++ template_opt (data blob))
      | None => scanParts rest
      end
  end.

(** A generated recipe: the object [{ ...r, id }]. *)
Definition withId (r : JSValue) (idx : nat) : gmap (list N) JSValue :=
  <[js "id" := JString (js "recipe-" ++ index_to_string idx)]> (ownProperties r).

(** ** The three exported functions

    [ai.models.generateContent] is the one call each of them awaits; it is a
    parameter here, and a call that rejects makes the function reject with
    the same error. *)

Section Service.

Variable generateContent :
  GenerateContentParameters -> Result GenerateContentResponse.

Definition detectIngredientsFromImage (base64Image : jsstring)
    : Result (list jsstring) :=
  response ← generateContent (detectRequest base64Image);
  let text := or_default (text response) [] in
  Ok (filter (fun i : list N => (0 < length i)%nat) (map trim (split 44 text))).

(** [mode] and [emotion] default to ['STANDARD'] and ['COMFORT'] when the
    caller leaves them out. *)
Definition generateRecipes (ingredients : list jsstring)
    (mode emotion : option jsstring) (tasteProfile : option TasteProfile)
    : Result (list (gmap (list N) JSValue)) :=
  let mode := default (js "STANDARD") mode in
  let emotion := default (js "COMFORT") emotion in
  response ← generateContent (recipeRequest ingredients mode emotion tasteProfile);
  recipes ← JSON.parse (or_default (text response) (js "[]"));
  array_map withId recipes.

Definition generateRecipeImage (recipeTitle : jsstring) : Result jsstring :=
  response ← generateContent (imageRequest recipeTitle);
  match scanParts (firstCandidateParts response) with
  | Some uri => Ok uri
  | None =>
      seed ← encodeURIComponent recipeTitle;
      Ok (js "https://picsum.photos/seed/" ++ seed ++ js "/600/600")
  end.

End Service.

(** * The vocabulary of the specification *)

(** Empty or made of white space only. *)
Definition isBlank (s : jsstring) : bool := forallb isWhiteSpace s.

Definition hasLeadingWhiteSpace (s : jsstring) : bool :=
  match head s with
  | Some c => isWhiteSpace c
  | None => false
  end.

Definition hasTrailingWhiteSpace (s : jsstring) : bool :=
  match last s with
  | Some c => isWhiteSpace c
  | None => false
  end.

(** What the extractor promises of an ingredient name. *)
Definition isClean (s : jsstring) : Prop :=
  s ≠ [] ∧ isBlank s = false
  ∧ hasLeadingWhiteSpace s = false ∧ hasTrailingWhiteSpace s = false
  ∧ 44 ∉ s.

(** A service that answers every request with the same response. *)
Definition answering (response : GenerateContentResponse)
    : GenerateContentParameters -> Result GenerateContentResponse :=
  fun _ => Ok response.

Definition textResponse (t : jsstring) : GenerateContentResponse :=
  {| text := Some t; candidates := None |}.

(** [e] occurs in [s] ([s.includes(e)]). *)
Definition Substring (e s : jsstring) : Prop :=
  ∃ pre post, s = pre ++ e ++ post.

(** No surrogate stands outside a pair ([s.isWellFormed()]). *)
Fixpoint isWellFormed (s : jsstring) : bool :=
  match s with
  | [] => true
  | c :: rest =>
      if isLowSurrogate c then false
      else if isHighSurrogate c then
        match rest with
        | d :: rest' => isLowSurrogate d && isWellFormed rest'
        | [] => false
        end
      else isWellFormed rest
  end.

(** The inline image payloads of a response as the specification reads it:
    those of all its candidate outputs, in order. *)
Definition candidateParts (c : Candidate) : list Part :=
  default [] (ct ← content c; parts ct).

Definition inlinePayloads (response : GenerateContentResponse) : list jsstring :=
  omap (fun p => b ← inlineData p; data b)
    (concat (map candidateParts (default [] (candidates response)))).

Definition imagePart (payload : jsstring) : Part :=
  {| part_text := None;
     inlineData := Some {| mimeType := Some (js "image/png");
                           data := Some payload |} |}.

Definition candidateOf (ps : list Part) : Candidate :=
  {| content := Some {| parts := Some ps |} |}.

(** A response of one candidate output with two images after a text part. *)
Definition imagesInFirstCandidate : GenerateContentResponse :=
  {| text := None;
     candidates := Some [candidateOf [textPart (js "Here.");
                                      imagePart (js "QUJD");
                                      imagePart (js "REVG")]] |}.

(** A response of two candidate outputs, the image in the second one. *)
Definition imageInSecondCandidate : GenerateContentResponse :=
  {| text := None;
     candidates := Some [candidateOf [textPart (js "Here is your image.")];
                         candidateOf [imagePart (js "QUJD")]] |}.

Definition sampleProfile : TasteProfile :=
  {| lovedRecipes := [js "smoky paprika"; js "lemon and garlic"];
     dislikedRecipes := [js "anchovy"];
     preferences := {| spiceLevel := js "medium";
                       texture := [js "crispy"];
                       flavorBias := [js "umami"] |} |}.

(** [e] written with double quotes around it, as it stands in a JSON
    text. *)
Definition quoted (s : string) : jsstring := DQ ++ js s ++ DQ.

(** A truncated answer, and an answer of three recipes. *)
Definition truncatedText : jsstring :=
  js "[{" ++ quoted "title" ++ js ": " ++ quoted "Omelette" ++ js ", "
  ++ quoted "prepTime" ++ js ": " ++ DQ ++ js "10 mi".

Definition threeRecipesText : jsstring :=
  js "[{" ++ quoted "title" ++ js ": " ++ quoted "Omelette" ++ js "}, {"
  ++ quoted "title" ++ js ": " ++ quoted "Frittata" ++ js ", "
  ++ quoted "calories" ++ js ": 320}, {"
  ++ quoted "id" ++ js ": " ++ quoted "x" ++ js ", "
  ++ quoted "title" ++ js ": " ++ quoted "Shakshuka" ++ js "}]".

(** A comma or a white-space character: what the extractor discards. *)
Definition isCommaOrWhiteSpace (c : N) : bool := (c =? 44) || isWhiteSpace c.

(** The number of commas of a text. *)
Definition commas (s : jsstring) : nat :=
  length (filter (fun c => c = 44) s).

(** An answer that is JSON but not an array: the recipes wrapped in an
    object. *)
Definition wrappedRecipesText : jsstring :=
  js "{" ++ quoted "recipes" ++ js ": []}".

(** A string value proper: every unit fits in 16 bits. *)
Definition isString (s : jsstring) : bool := forallb (fun c => c <? 65536) s.

(** The characters [encodeURIComponent] can produce: the unreserved ones
    and the percent sign. *)
Definition isURLSafe (c : N) : bool := isUnreserved c || (c =? 37).

(** What the illustrator reads of a part: whether it has inline data, and
    the data. *)
Definition partData (p : Part) : option (option jsstring) :=
  data <$> inlineData p.

(** An inline image whose [data] field is missing. *)
Definition emptyImagePart : Part :=
  {| part_text := None;
     inlineData := Some {| mimeType := Some (js "image/png"); data := None |} |}.

Definition placeholder (seed : jsstring) : jsstring :=
  js "https://picsum.photos/seed/" ++ seed ++ js "/600/600".

(** The image of [imagesInFirstCandidate] sent as JPEG data, with a text
    and a second candidate besides. *)
Definition jpegInFirstCandidate : GenerateContentResponse :=
  {| text := Some (js "Here.");
     candidates :=
       Some [candidateOf
               [textPart (js "Enjoy!");
                {| part_text := Some (js "caption");
                   inlineData := Some {| mimeType := Some (js "image/jpeg");
                                         data := Some (js "QUJD") |} |};
                imagePart (js "REVG")];
             candidateOf [imagePart (js "R0hJ")]] |}.

(** The white space of the JSON grammar: space, tab, line feed, carriage
    return. *)
Definition isJSONWhiteSpace (c : N) : bool :=
  (c =? 32) || (c =? 9) || (c =? 10) || (c =? 13).

(** Whether a value is an object, and whether a frame is the frame of an
    object. *)
Definition isObjectValue (v : JSValue) : bool :=
  match v with
  | JObject _ => true
  | _ => false
  end.

Definition isObjectFrame (f : frame) : bool :=
  match f with
  | FObject _ _ => true
  | FArray _ => false
  end.

(** The kind of the outermost container still open. *)
Fixpoint root (stack : list frame) : option bool :=
  match stack with
  | [] => None
  | f :: stack' =>
      match root stack' with
      | Some b => Some b
      | None => Some (isObjectFrame f)
      end
  end.

(** While tokens are read, the outermost open container stays of its kind,
    and the value read in the end is of that kind. *)
Definition rootKept (b : bool) (st : parse_state) : Prop :=
  match st with
  | PRun stack _ => root stack = Some b
  | PDone v => isObjectValue v = b
  end.

(** A lexer state inside a token that is not an opening bracket. *)
Definition inToken (st : lex_state) : Prop :=
  match st with
  | LStart => False
  | LLiteral _ t => t ≠ TLBracket
  | _ => True
  end.

(** An answer wrapped in a Markdown code fence. *)
Definition fencedText : jsstring :=
  js "```json" ++ LF ++ js "[]" ++ LF ++ js "```".

(** * Properties *)

(** ** Strings *)

Lemma trimStart_leading s : hasLeadingWhiteSpace (trimStart s) = false.
Proof.
  induction s as [|c s IH]; [reflexivity|].
  simpl. destruct (isWhiteSpace c) eqn:Hc; [exact IH|].
  unfold hasLeadingWhiteSpace. simpl. exact Hc.
Qed.

Lemma trimStart_suffix s : trimStart s `suffix_of` s.
Proof.
  induction s as [|c s IH]; [done|].
  simpl. destruct (isWhiteSpace c); [|done].
  by apply suffix_cons_r.
Qed.

Lemma trimStart_trailing s :
  hasTrailingWhiteSpace s = false → hasTrailingWhiteSpace (trimStart s) = false.
Proof.
  intros Hs. destruct (trimStart_suffix s) as [pre Hpre].
  unfold hasTrailingWhiteSpace in *.
  destruct (last (trimStart s)) as [c|] eqn:Hl; [|done].
  rewrite Hpre, last_app, Hl in Hs. exact Hs.
Qed.

Lemma trimEnd_trailing s : hasTrailingWhiteSpace (trimEnd s) = false.
Proof.
  unfold trimEnd, hasTrailingWhiteSpace. rewrite last_reverse.
  apply trimStart_leading.
Qed.

Lemma trimEnd_leading s :
  hasLeadingWhiteSpace s = false → hasLeadingWhiteSpace (trimEnd s) = false.
Proof.
  intros Hs. unfold trimEnd, hasLeadingWhiteSpace. rewrite head_reverse.
  apply trimStart_trailing. unfold hasTrailingWhiteSpace.
  by rewrite last_reverse.
Qed.

Lemma trim_leading s : hasLeadingWhiteSpace (trim s) = false.
Proof. apply trimEnd_leading, trimStart_leading. Qed.

Lemma trim_trailing s : hasTrailingWhiteSpace (trim s) = false.
Proof. apply trimEnd_trailing. Qed.

Lemma not_leading_not_blank s :
  s ≠ [] → hasLeadingWhiteSpace s = false → isBlank s = false.
Proof.
  destruct s as [|c s]; [done|].
  unfold hasLeadingWhiteSpace, isBlank. simpl. by intros _ ->.
Qed.

Lemma trimStart_elem_of c s : c ∈ trimStart s → c ∈ s.
Proof.
  destruct (trimStart_suffix s) as [pre Hpre]. intros Hc.
  rewrite Hpre. apply elem_of_app. by right.
Qed.

Lemma trim_elem_of c s : c ∈ trim s → c ∈ s.
Proof.
  unfold trim, trimEnd. rewrite elem_of_reverse. intros Hc.
  apply trimStart_elem_of. rewrite <- elem_of_reverse.
  by apply trimStart_elem_of.
Qed.

(** [split] cuts at every separator and nowhere else. *)
Lemma split_not_nil sep s : split sep s ≠ [].
Proof.
  destruct s as [|c s]; simpl; [done|].
  destruct (c =? sep); [done|]. by destruct (split sep s).
Qed.

Lemma split_no_separator sep s : Forall (fun seg => sep ∉ seg) (split sep s).
Proof.
  induction s as [|c s IH]; simpl.
  - repeat constructor. apply not_elem_of_nil.
  - destruct (c =? sep) eqn:Hc.
    + constructor; [apply not_elem_of_nil | exact IH].
    + apply N.eqb_neq in Hc.
      destruct (split sep s) as [|seg segs].
      * repeat constructor. apply not_elem_of_cons.
        split; [congruence | apply not_elem_of_nil].
      * apply Forall_cons in IH as [Hseg Hsegs].
        constructor; [|exact Hsegs].
        apply not_elem_of_cons. split; [congruence | exact Hseg].
Qed.

Lemma split_join sep s : join [sep] (split sep s) = s.
Proof.
  induction s as [|c s IH]; [reflexivity|].
  simpl. destruct (c =? sep) eqn:Hc.
  - apply N.eqb_eq in Hc. subst c.
    pose proof (split_not_nil sep s) as Hne.
    destruct (split sep s) as [|seg segs]; [done|].
    simpl in *. by rewrite IH.
  - pose proof (split_not_nil sep s) as Hne.
    destruct (split sep s) as [|seg segs]; [done|].
    destruct segs; simpl in *; by rewrite <- IH.
Qed.

Lemma trimmed_segments_clean text :
  Forall isClean
    (filter (fun i : list N => (0 < length i)%nat) (map trim (split 44 text))).
Proof.
  apply Forall_forall. intros x [Hlen Hin]%list_elem_of_filter.
  apply list_elem_of_fmap in Hin as [seg [-> Hseg]].
  assert (Hne : trim seg ≠ []) by (intros E; rewrite E in Hlen; simpl in Hlen; lia).
  repeat split.
  - exact Hne.
  - apply not_leading_not_blank; [exact Hne | apply trim_leading].
  - apply trim_leading.
  - apply trim_trailing.
  - intros Hc.
    pose proof (split_no_separator 44 text) as Hall.
    rewrite Forall_forall in Hall. apply (Hall seg Hseg).
    by apply trim_elem_of.
Qed.

(** ** The error monad and [JSON.parse] *)

Lemma or_default_nonempty t d : t ≠ [] → or_default (Some t) d = t.
Proof. by destruct t. Qed.

Lemma or_default_empty v d : v = None ∨ v = Some [] → or_default v d = d.
Proof. by intros [-> | ->]. Qed.

Lemma parse_cases text :
  JSON.parse text = Err SyntaxError ∨ ∃ v, JSON.parse text = Ok v.
Proof.
  unfold JSON.parse. destruct (lex text) as [ts|]; [|by left].
  destruct (parse_tokens _ ts) as [v|]; [right; by exists v | by left].
Qed.

Lemma parse_invalid text :
  (∀ v, JSON.parse text ≠ Ok v) → JSON.parse text = Err SyntaxError.
Proof.
  intros Hno. destruct (parse_cases text) as [E | [v E]]; [exact E|].
  by destruct (Hno v).
Qed.

Lemma parse_Ok_nonempty text v : JSON.parse text = Ok v → text ≠ [].
Proof. intros E ->. discriminate E. Qed.

(** ** The ingredient extractor *)

Section Extractor.

Variable generateContent :
  GenerateContentParameters -> Result GenerateContentResponse.
Variable base64Image : jsstring.
Variable response : GenerateContentResponse.
Hypothesis completed : generateContent (detectRequest base64Image) = Ok response.

(** C5: whatever text the service answers with, the extractor returns the
    comma-separated segments of that text, trimmed, without the empty ones;
    no returned name is empty or made of white space only, none begins or
    ends with a white-space character (a space in particular), and none
    contains a comma. *)
Theorem detectIngredients_clean :
  ∃ names,
    detectIngredientsFromImage generateContent base64Image = Ok names
    ∧ names = filter (fun i : list N => (0 < length i)%nat)
                (map trim (split 44 (or_default (text response) [])))
    ∧ Forall isClean names.
Proof.
  unfold detectIngredientsFromImage. rewrite completed. simpl.
  eexists. split; [reflexivity|]. split; [reflexivity|].
  apply trimmed_segments_clean.
Qed.

(** C6, as the code has it: when the service completes with no text or
    with the empty text, the extractor returns the empty list of
    ingredients; it raises no error. *)
Theorem detectIngredients_empty_text :
  text response = None ∨ text response = Some [] →
  detectIngredientsFromImage generateContent base64Image = Ok [].
Proof.
  intros Hempty. unfold detectIngredientsFromImage. rewrite completed. simpl.
  by rewrite (or_default_empty _ _ Hempty).
Qed.

End Extractor.

Lemma detectIngredients_clean_witness :
  ∃ names,
    detectIngredientsFromImage
      (answering (textResponse (js " milk, eggs ,, , unsalted butter ")))
      (js "/9j/4AAQ") = Ok names
    ∧ names = filter (fun i : list N => (0 < length i)%nat)
                (map trim (split 44
                   (or_default
                      (text (textResponse (js " milk, eggs ,, , unsalted butter ")))
                      [])))
    ∧ Forall isClean names.
Proof.
  apply (detectIngredients_clean
           (answering (textResponse (js " milk, eggs ,, , unsalted butter ")))
           (js "/9j/4AAQ")).
  reflexivity.
Defined.

Example detectIngredients_example :
  detectIngredientsFromImage
    (answering (textResponse (js " milk, eggs ,, , unsalted butter ")))
    (js "/9j/4AAQ")
  = Ok [js "milk"; js "eggs"; js "unsalted butter"].
Proof. reflexivity. Qed.

(** C6 as the spec states it fails: on a response with the empty text the
    extractor succeeds with the empty list. *)
Lemma detectIngredients_empty_text_no_failure :
  detectIngredientsFromImage (answering (textResponse [])) (js "/9j/4AAQ")
  = Ok []
  ∧ is_Err (detectIngredientsFromImage (answering (textResponse []))
              (js "/9j/4AAQ")) = false.
Proof. split; reflexivity. Qed.

Lemma detectIngredients_empty_text_witness :
  detectIngredientsFromImage (answering (textResponse [])) (js "/9j/4AAQ")
  = Ok [].
Proof.
  apply (detectIngredients_empty_text (answering (textResponse []))
           (js "/9j/4AAQ") (textResponse [])).
  - reflexivity.
  - right. reflexivity.
Defined.

(** ** The recipe generator *)

Lemma withId_id r idx :
  withId r idx !! js "id" = Some (JString (js "recipe-" ++ index_to_string idx)).
Proof. unfold withId. apply lookup_insert_eq. Qed.

Lemma withId_other r idx k :
  k ≠ js "id" → withId r idx !! k = ownProperties r !! k.
Proof. intros Hk. unfold withId. by apply lookup_insert_ne. Qed.

Section Generator.

Variable generateContent :
  GenerateContentParameters -> Result GenerateContentResponse.
Variable ingredients : list jsstring.
Variables mode emotion : option jsstring.
Variable tasteProfile : option TasteProfile.
Variable response : GenerateContentResponse.
Hypothesis completed :
  generateContent
    (recipeRequest ingredients (default (js "STANDARD") mode)
       (default (js "COMFORT") emotion) tasteProfile)
  = Ok response.

(** C1, as the code has it: when the service completes with no text or
    with the empty text, the generator parses the text [[]] in its place
    and returns the empty list of recipes; it raises no error. *)
Theorem generateRecipes_empty_text :
  text response = None ∨ text response = Some [] →
  generateRecipes generateContent ingredients mode emotion tasteProfile = Ok [].
Proof.
  intros Hempty. unfold generateRecipes. rewrite completed. simpl.
  by rewrite (or_default_empty _ _ Hempty).
Qed.

(** C2: when the text of the response is not empty and is not a JSON text,
    the generator fails, with the SyntaxError of [JSON.parse]; it returns no
    list of recipes. *)
Theorem generateRecipes_malformed t :
  text response = Some t → t ≠ [] → (∀ v, JSON.parse t ≠ Ok v) →
  generateRecipes generateContent ingredients mode emotion tasteProfile
  = Err SyntaxError.
Proof.
  intros Ht Hne Hbad. unfold generateRecipes. rewrite completed. simpl.
  rewrite Ht, (or_default_nonempty _ _ Hne), (parse_invalid _ Hbad).
  reflexivity.
Qed.

(** C3: when the text of the response is the two characters [[]], the
    generator returns the empty list of recipes and no error. *)
Theorem generateRecipes_empty_array :
  text response = Some (js "[]") →
  generateRecipes generateContent ingredients mode emotion tasteProfile = Ok [].
Proof.
  intros Ht. unfold generateRecipes. rewrite completed. simpl.
  by rewrite Ht.
Qed.

(** C4, as the code has it: when the text of the response parses to a JSON
    array of [n] elements, the generator returns [n] recipes, in the order
    of the array, and the recipe at position [i] has the [id] [recipe-<i>];
    when the element at [i] is an object, the recipe is that object with
    [id] set: under every other name it has the property the object has,
    and no other property. *)
Theorem generateRecipes_array t elems :
  text response = Some t → JSON.parse t = Ok (JArray elems) →
  ∃ recipes,
    generateRecipes generateContent ingredients mode emotion tasteProfile
    = Ok recipes
    ∧ length recipes = length elems
    ∧ (∀ i r, elems !! i = Some r →
         ∃ c, recipes !! i = Some c
              ∧ c !! js "id" = Some (JString (js "recipe-" ++ index_to_string i)))
    ∧ (∀ i props, elems !! i = Some (JObject props) →
         ∃ c, recipes !! i = Some c
              ∧ c = <[js "id" := JString (js "recipe-" ++ index_to_string i)]> props
              ∧ ∀ k, k ≠ js "id" → c !! k = props !! k).
Proof.
  intros Ht Hparse. unfold generateRecipes. rewrite completed. simpl.
  rewrite Ht, (or_default_nonempty _ _ (parse_Ok_nonempty _ _ Hparse)), Hparse.
  simpl.
  eexists. split; [reflexivity|]. split; [apply length_imap|]. split.
  - intros i r Hi. exists (withId r i). rewrite list_lookup_imap, Hi. simpl.
    split; [reflexivity | apply withId_id].
  - intros i props Hi. exists (withId (JObject props) i).
    rewrite list_lookup_imap, Hi. simpl.
    split; [reflexivity|]. split; [reflexivity|].
    intros k Hk. by apply withId_other.
Qed.

End Generator.

(** C1 as the spec states it fails: on a response with the empty text the
    generator succeeds with the empty list. *)
Lemma generateRecipes_empty_text_no_failure :
  generateRecipes (answering (textResponse [])) [js "eggs"] None None None
  = Ok []
  ∧ is_Err (generateRecipes (answering (textResponse [])) [js "eggs"]
              None None None) = false.
Proof. split; reflexivity. Qed.

Lemma generateRecipes_empty_text_witness :
  generateRecipes (answering (textResponse [])) [js "eggs"] None None None
  = Ok [].
Proof.
  apply (generateRecipes_empty_text (answering (textResponse [])) [js "eggs"]
           None None None (textResponse [])).
  - reflexivity.
  - right. reflexivity.
Defined.

Lemma generateRecipes_malformed_witness :
  generateRecipes (answering (textResponse truncatedText)) [js "eggs"]
    None None None
  = Err SyntaxError.
Proof.
  apply (generateRecipes_malformed (answering (textResponse truncatedText))
           [js "eggs"] None None None (textResponse truncatedText)
           eq_refl truncatedText eq_refl).
  - vm_compute. discriminate.
  - intros v. vm_compute. discriminate.
Defined.

Lemma generateRecipes_empty_array_witness :
  generateRecipes (answering (textResponse (js "[]"))) [js "eggs"]
    None None None
  = Ok [].
Proof.
  apply (generateRecipes_empty_array (answering (textResponse (js "[]")))
           [js "eggs"] None None None (textResponse (js "[]")) eq_refl).
  reflexivity.
Defined.

Lemma threeRecipesText_parse :
  JSON.parse threeRecipesText
  = Ok (JArray
          [JObject {[ js "title" := JString (js "Omelette") ]};
           JObject (<[ js "title" := JString (js "Frittata") ]>
                      {[ js "calories" := JNumber (js "320") ]});
           JObject (<[ js "id" := JString (js "x") ]>
                      {[ js "title" := JString (js "Shakshuka") ]})]).
Proof. vm_compute. reflexivity. Qed.

(** C4 as the spec states it fails: an element that is not an object is
    not kept; the answers [[1]] and [[null]] both give one recipe that has
    an [id] and nothing else. *)
Lemma generateRecipes_non_object_element_lost :
  JSON.parse (js "[1]") = Ok (JArray [JNumber (js "1")])
  ∧ generateRecipes (answering (textResponse (js "[1]"))) [js "eggs"]
      None None None
    = Ok [ {[ js "id" := JString (js "recipe-0") ]} ]
  ∧ generateRecipes (answering (textResponse (js "[null]"))) [js "eggs"]
      None None None
    = Ok [ {[ js "id" := JString (js "recipe-0") ]} ].
Proof. repeat split; vm_compute; reflexivity. Qed.

Lemma generateRecipes_array_witness :
  ∃ recipes,
    generateRecipes (answering (textResponse threeRecipesText)) [js "eggs"]
      None None None = Ok recipes
    ∧ length recipes = 3%nat
    ∧ (recipes !! 0%nat) ≫= (.!! js "id") = Some (JString (js "recipe-0"))
    ∧ (recipes !! 1%nat) ≫= (.!! js "id") = Some (JString (js "recipe-1"))
    ∧ (recipes !! 2%nat) ≫= (.!! js "id") = Some (JString (js "recipe-2"))
    ∧ (recipes !! 2%nat) ≫= (.!! js "title") = Some (JString (js "Shakshuka")).
Proof.
  destruct (generateRecipes_array (answering (textResponse threeRecipesText))
              [js "eggs"] None None None (textResponse threeRecipesText)
              eq_refl threeRecipesText _ eq_refl threeRecipesText_parse)
    as (recipes & Hrun & Hlen & _ & Hobj).
  exists recipes. split; [exact Hrun|]. split; [exact Hlen|].
  destruct (Hobj 0%nat _ eq_refl) as (c0 & -> & -> & _).
  destruct (Hobj 1%nat _ eq_refl) as (c1 & -> & -> & _).
  destruct (Hobj 2%nat _ eq_refl) as (c2 & -> & -> & _).
  repeat split; vm_compute; reflexivity.
Defined.

Example generateRecipes_three :
  generateRecipes (answering (textResponse threeRecipesText)) [js "eggs"]
    None None None
  = Ok [ <[ js "id" := JString (js "recipe-0") ]>
           {[ js "title" := JString (js "Omelette") ]};
         <[ js "id" := JString (js "recipe-1") ]>
           (<[ js "title" := JString (js "Frittata") ]>
              {[ js "calories" := JNumber (js "320") ]});
         <[ js "id" := JString (js "recipe-2") ]>
           {[ js "title" := JString (js "Shakshuka") ]} ].
Proof. vm_compute. reflexivity. Qed.

(** A parsed value that is not an array has no [map] to call. *)
Example generateRecipes_object :
  generateRecipes (answering (textResponse (js "{}"))) [js "eggs"]
    None None None
  = Err TypeError.
Proof. reflexivity. Qed.

(** ** The constraint blocks *)

(** C7: each of the four dietary modes has a sentence that is not empty,
    the four sentences differ from one another, and every other value of
    [mode] gets the neutral sentence on balanced recipes. *)
Theorem modeConstraint_modes :
  Forall (fun mode => modeConstraint mode ≠ []) RecipeMode_values
  ∧ NoDup (map modeConstraint RecipeMode_values)
  ∧ ∀ mode, mode ∉ RecipeMode_values →
      modeConstraint mode = js "Provide balanced and delicious recipes.".
Proof.
  split; [|split].
  - repeat constructor; vm_compute; discriminate.
  - apply (bool_decide_unpack _). vm_compute. exact I.
  - intros mode Hout. unfold RecipeMode_values in Hout.
    repeat (apply not_elem_of_cons in Hout as [? Hout]).
    unfold modeConstraint. repeat case_decide; done.
Qed.

Lemma modeConstraint_modes_witness :
  modeConstraint (js "VEGAN") = js "Provide balanced and delicious recipes.".
Proof.
  apply (proj2 (proj2 modeConstraint_modes)).
  apply (bool_decide_unpack _). vm_compute. exact I.
Defined.

(** C8: each of the six emotional styles has a sentence that is not empty,
    the six sentences differ from one another, and every other value of
    [emotion] gets the empty string. *)
Theorem emotionConstraint_styles :
  Forall (fun emotion => emotionConstraint emotion ≠ []) RecipeEmotion_values
  ∧ NoDup (map emotionConstraint RecipeEmotion_values)
  ∧ ∀ emotion, emotion ∉ RecipeEmotion_values → emotionConstraint emotion = [].
Proof.
  split; [|split].
  - repeat constructor; vm_compute; discriminate.
  - apply (bool_decide_unpack _). vm_compute. exact I.
  - intros emotion Hout. unfold RecipeEmotion_values in Hout.
    repeat (apply not_elem_of_cons in Hout as [? Hout]).
    unfold emotionConstraint. repeat case_decide; done.
Qed.

Lemma emotionConstraint_styles_witness : emotionConstraint (js "GRUMPY") = [].
Proof.
  apply (proj2 (proj2 emotionConstraint_styles)).
  apply (bool_decide_unpack _). vm_compute. exact I.
Defined.

Lemma Substring_refl e : Substring e e.
Proof. exists [], []. by rewrite app_nil_r. Qed.

Lemma Substring_app_l e s t : Substring e s → Substring e (s ++ t).
Proof.
  intros (pre & post & ->). exists pre, (post ++ t).
  by rewrite <- !app_assoc.
Qed.

Lemma Substring_app_r e s t : Substring e t → Substring e (s ++ t).
Proof.
  intros (pre & post & ->). exists (s ++ pre), post.
  by rewrite <- !app_assoc.
Qed.

Lemma join_Substring sep xs e : e ∈ xs → Substring e (join sep xs).
Proof.
  induction xs as [|x xs IH]; [by intros ?%elem_of_nil|].
  intros [-> | Hin]%elem_of_cons.
  - destruct xs; [apply Substring_refl | apply Substring_app_l, Substring_refl].
  - destruct xs as [|y ys]; [by apply elem_of_nil in Hin|].
    change (join sep (x :: y :: ys)) with (x ++ sep ++ join sep (y :: ys)).
    by apply Substring_app_r, Substring_app_r, IH.
Qed.

(** C9: without a taste profile the personalization block is the empty
    string; with one, the block contains every entry of [lovedRecipes] and
    every entry of [dislikedRecipes] as it is written. *)
Theorem tasteContext_patterns :
  tasteContext None = []
  ∧ ∀ profile e,
      e ∈ lovedRecipes profile ∨ e ∈ dislikedRecipes profile →
      Substring e (tasteContext (Some profile)).
Proof.
  split; [reflexivity|].
  intros profile e [Hin | Hin]; simpl; unfold tasteBlock.
  - do 4 apply Substring_app_r. apply Substring_app_l.
    by apply join_Substring.
  - do 7 apply Substring_app_r. apply Substring_app_l.
    by apply join_Substring.
Qed.

Lemma tasteContext_patterns_witness :
  Substring (js "anchovy") (tasteContext (Some sampleProfile)).
Proof.
  apply (proj2 tasteContext_patterns sampleProfile (js "anchovy")).
  right. simpl. constructor.
Defined.

(** ** The recipe illustrator *)

Lemma scanParts_skip pre ps :
  Forall (fun q => inlineData q = None) pre →
  scanParts (pre ++ ps) = scanParts ps.
Proof.
  induction 1 as [|q pre Hq _ IH]; [reflexivity|].
  simpl. by rewrite Hq.
Qed.

Lemma scanParts_none ps :
  Forall (fun q => inlineData q = None) ps → scanParts ps = None.
Proof.
  intros Hps. rewrite <- (app_nil_r ps). by rewrite scanParts_skip.
Qed.

(** Boolean comparisons on code units, as facts for [lia]. *)
Ltac reflect_units :=
  repeat match goal with
         | H : (_ || _) = true |- _ => apply orb_prop in H as [H | H]
         | H : (_ && _) = true |- _ => apply andb_prop in H as [? H]
         | H : (_ <=? _) = true |- _ => apply N.leb_le in H
         | H : (_ =? _) = true |- _ => apply N.eqb_eq in H
         end.

Lemma unreserved_not_surrogate c :
  isUnreserved c = true → isLowSurrogate c = false ∧ isHighSurrogate c = false.
Proof.
  intros Hu. unfold isUnreserved, isLowSurrogate, isHighSurrogate in *.
  split; apply andb_false_iff; left; apply N.leb_gt; reflect_units; lia.
Qed.

(** [encodeURIComponent] throws on the strings that are not well formed,
    and on no other. *)
Lemma encodeURIComponent_wellFormed_bounded n s :
  (length s ≤ n)%nat →
  if isWellFormed s then ∃ seed, encodeURIComponent s = Ok seed
  else encodeURIComponent s = Err URIError.
Proof.
  revert s. induction n as [|n IH]; intros s Hlen.
  - destruct s; [by exists [] | simpl in Hlen; lia].
  - assert (Hstep : ∀ rest (f : jsstring → jsstring),
              (length rest ≤ n)%nat →
              if isWellFormed rest
              then ∃ seed, (r ← encodeURIComponent rest; Ok (f r)) = Ok seed
              else (r ← encodeURIComponent rest; Ok (f r)) = Err URIError).
    { intros rest f Hrest. specialize (IH rest Hrest).
      destruct (isWellFormed rest).
      - destruct IH as [seed ->]. by eexists.
      - by rewrite IH. }
    destruct s as [|c rest]; [by exists []|].
    simpl in Hlen. simpl.
    destruct (isUnreserved c) eqn:Hu.
    + destruct (unreserved_not_surrogate c Hu) as [-> ->].
      apply Hstep. lia.
    + destruct (isLowSurrogate c); [reflexivity|].
      destruct (isHighSurrogate c); [|apply Hstep; lia].
      destruct rest as [|d rest']; [reflexivity|].
      destruct (isLowSurrogate d); [|reflexivity].
      simpl in Hlen. apply Hstep. lia.
Qed.

Lemma encodeURIComponent_wellFormed s :
  isWellFormed s = true → ∃ seed, encodeURIComponent s = Ok seed.
Proof.
  intros Hwf.
  pose proof (encodeURIComponent_wellFormed_bounded (length s) s (le_n _)) as H.
  by rewrite Hwf in H.
Qed.

Lemma encodeURIComponent_malformed s :
  isWellFormed s = false → encodeURIComponent s = Err URIError.
Proof.
  intros Hwf.
  pose proof (encodeURIComponent_wellFormed_bounded (length s) s (le_n _)) as H.
  by rewrite Hwf in H.
Qed.

Section Illustrator.

Variable generateContent :
  GenerateContentParameters -> Result GenerateContentResponse.
Variable recipeTitle : jsstring.
Variable response : GenerateContentResponse.
Hypothesis completed : generateContent (imageRequest recipeTitle) = Ok response.

(** C10, as the code has it: the illustrator looks at the content parts of
    the first candidate output only.  If one of them carries inline data,
    the result is [data:image/png;base64,<payload>] for the first such
    part.  If none does (or there is no first candidate) and the title is
    well formed, the result is the placeholder URL
    [https://picsum.photos/seed/<encoded title>/600/600] and no error; and
    two calls for the same title that find no image in the first candidate
    give the same result. *)
Theorem generateRecipeImage_first_candidate :
  (∀ pre p post blob payload,
     firstCandidateParts response = pre ++ p :: post →
     Forall (fun q => inlineData q = None) pre →
     inlineData p = Some blob → data blob = Some payload →
     generateRecipeImage generateContent recipeTitle
     = Ok (js "data:image/png;base64," ++ payload))
  ∧ (Forall (fun q => inlineData q = None) (firstCandidateParts response) →
     isWellFormed recipeTitle = true →
     ∃ seed, encodeURIComponent recipeTitle = Ok seed
       ∧ generateRecipeImage generateContent recipeTitle
         = Ok (js "https://picsum.photos/seed/" ++ seed ++ js "/600/600"))
  ∧ (∀ generateContent' response',
       generateContent' (imageRequest recipeTitle) = Ok response' →
       Forall (fun q => inlineData q = None) (firstCandidateParts response) →
       Forall (fun q => inlineData q = None) (firstCandidateParts response') →
       generateRecipeImage generateContent' recipeTitle
       = generateRecipeImage generateContent recipeTitle).
Proof.
  split; [|split].
  - intros pre p post blob payload Hparts Hpre Hp Hdata.
    unfold generateRecipeImage. rewrite completed. simpl.
    rewrite Hparts, (scanParts_skip _ _ Hpre). simpl.
    by rewrite Hp, Hdata.
  - intros Hnone Hwf.
    destruct (encodeURIComponent_wellFormed _ Hwf) as [seed Hseed].
    exists seed. split; [exact Hseed|].
    unfold generateRecipeImage. rewrite completed. simpl.
    by rewrite (scanParts_none _ Hnone), Hseed.
  - intros generateContent' response' Hcompleted' Hnone Hnone'.
    unfold generateRecipeImage. rewrite completed, Hcompleted'. simpl.
    by rewrite (scanParts_none _ Hnone), (scanParts_none _ Hnone').
Qed.

End Illustrator.

(** C10 as the spec states it fails: the response holds an inline image
    payload, in its second candidate output, and the illustrator returns
    the placeholder URL. *)
Lemma generateRecipeImage_second_candidate_ignored :
  inlinePayloads imageInSecondCandidate = [js "QUJD"]
  ∧ generateRecipeImage (answering imageInSecondCandidate) (js "Tomato Soup")
    = Ok (js "https://picsum.photos/seed/Tomato%20Soup/600/600")
  ∧ generateRecipeImage (answering imageInSecondCandidate) (js "Tomato Soup")
    ≠ Ok (js "data:image/png;base64,QUJD").
Proof. repeat split. vm_compute. discriminate. Qed.

Lemma generateRecipeImage_first_candidate_witness :
  generateRecipeImage (answering imagesInFirstCandidate) (js "Tomato Soup")
  = Ok (js "data:image/png;base64," ++ js "QUJD")
  ∧ ∃ seed, encodeURIComponent (js "Tomato Soup") = Ok seed
      ∧ generateRecipeImage (answering imageInSecondCandidate) (js "Tomato Soup")
        = Ok (js "https://picsum.photos/seed/" ++ seed ++ js "/600/600").
Proof.
  split.
  - apply (proj1 (generateRecipeImage_first_candidate
                    (answering imagesInFirstCandidate) (js "Tomato Soup")
                    imagesInFirstCandidate eq_refl)
             [textPart (js "Here.")] (imagePart (js "QUJD"))
             [imagePart (js "REVG")]
             {| mimeType := Some (js "image/png"); data := Some (js "QUJD") |}
             (js "QUJD"));
      [reflexivity | repeat constructor | reflexivity | reflexivity].
  - apply (proj1 (proj2 (generateRecipeImage_first_candidate
                           (answering imageInSecondCandidate)
                           (js "Tomato Soup") imageInSecondCandidate eq_refl)));
      [repeat constructor | reflexivity].
Defined.

Example generateRecipeImage_payload :
  generateRecipeImage (answering imagesInFirstCandidate) (js "Tomato Soup")
  = Ok (js "data:image/png;base64,QUJD").
Proof. reflexivity. Qed.

Example generateRecipeImage_no_candidates :
  generateRecipeImage (answering {| text := None; candidates := None |})
    (js "Tomato Soup")
  = Ok (js "https://picsum.photos/seed/Tomato%20Soup/600/600").
Proof. reflexivity. Qed.

(** A title with a surrogate outside a pair makes [encodeURIComponent]
    throw. *)
Example generateRecipeImage_lone_surrogate :
  generateRecipeImage (answering {| text := None; candidates := None |})
    (js "Soup " ++ [55357])
  = Err URIError.
Proof. reflexivity. Qed.

(** * Further properties *)

(** ** More on [trim] and [split] *)

Lemma Substring_trans e s t : Substring e s → Substring s t → Substring e t.
Proof.
  intros (pre & post & ->) (pre' & post' & ->).
  exists (pre' ++ pre), (post ++ post'). by rewrite <- !app_assoc.
Qed.

Lemma trimEnd_prefix s : trimEnd s `prefix_of` s.
Proof.
  unfold trimEnd. destruct (trimStart_suffix (reverse s)) as [pre Hpre].
  exists (reverse pre).
  rewrite <- (reverse_involutive s) at 1. rewrite Hpre at 1.
  apply reverse_app.
Qed.

Lemma trim_Substring s : Substring (trim s) s.
Proof.
  destruct (trimStart_suffix s) as [pre Hpre].
  destruct (trimEnd_prefix (trimStart s)) as [post Hpost].
  exists pre, post. unfold trim. by rewrite <- Hpost.
Qed.

Lemma split_Substring sep s seg : seg ∈ split sep s → Substring seg s.
Proof.
  intros Hin. rewrite <- (split_join sep s). by apply join_Substring.
Qed.

Lemma trimStart_fixed s : hasLeadingWhiteSpace s = false → trimStart s = s.
Proof.
  destruct s as [|c s]; [done|].
  unfold hasLeadingWhiteSpace. simpl. by intros ->.
Qed.

Lemma trimEnd_fixed s : hasTrailingWhiteSpace s = false → trimEnd s = s.
Proof.
  intros Hs. unfold trimEnd. rewrite trimStart_fixed.
  - apply reverse_involutive.
  - unfold hasLeadingWhiteSpace. rewrite head_reverse. exact Hs.
Qed.

Lemma trim_fixed s :
  hasLeadingWhiteSpace s = false → hasTrailingWhiteSpace s = false → trim s = s.
Proof.
  intros Hl Ht. unfold trim. rewrite (trimStart_fixed _ Hl).
  by apply trimEnd_fixed.
Qed.

Lemma trimStart_app_blank pad s :
  isBlank pad = true → trimStart (pad ++ s) = trimStart s.
Proof.
  induction pad as [|c pad IH]; [done|].
  unfold isBlank. simpl. intros [-> Hpad]%andb_prop. by apply IH.
Qed.

Lemma trimStart_nil s : trimStart s = [] ↔ isBlank s = true.
Proof.
  induction s as [|c s IH]; [done|].
  unfold isBlank in *. simpl. destruct (isWhiteSpace c); simpl; [exact IH|].
  split; discriminate.
Qed.

Lemma isBlank_reverse s : isBlank (reverse s) = isBlank s.
Proof.
  unfold isBlank. apply eq_true_iff_eq.
  rewrite !forallb_forall. setoid_rewrite <- list_elem_of_In.
  by setoid_rewrite elem_of_reverse.
Qed.

Lemma trim_nil s : trim s = [] ↔ isBlank s = true.
Proof.
  split.
  - intros Hnil. unfold trim, trimEnd in Hnil.
    apply (f_equal reverse) in Hnil.
    rewrite reverse_involutive, reverse_nil in Hnil.
    apply trimStart_nil in Hnil. rewrite isBlank_reverse in Hnil.
    apply trimStart_nil.
    destruct (trimStart s) as [|c t] eqn:Ht; [done|].
    pose proof (trimStart_leading s) as Hlead. rewrite Ht in Hlead.
    unfold hasLeadingWhiteSpace, isBlank in *. simpl in *.
    by rewrite Hlead in Hnil.
  - intros Hblank. unfold trim.
    by rewrite (proj2 (trimStart_nil s) Hblank).
Qed.

Lemma split_length sep s : length (split sep s) = S (length (filter (fun c => c = sep) s)).
Proof.
  induction s as [|c s IH]; [done|].
  simpl. destruct (N.eqb_spec c sep) as [-> | Hne].
  - rewrite filter_cons_True by done. simpl. by rewrite IH.
  - rewrite filter_cons_False by done. rewrite <- IH.
    pose proof (split_not_nil sep s). by destruct (split sep s).
Qed.

Lemma split_blank s :
  Forall (fun seg => isBlank seg = true) (split 44 s)
  ↔ forallb isCommaOrWhiteSpace s = true.
Proof.
  induction s as [|c s IH].
  - split; [reflexivity | intros _; by repeat constructor].
  - pose proof (split_not_nil 44 s) as Hne.
    cbn [split forallb]. unfold isCommaOrWhiteSpace at 1.
    destruct (c =? 44) eqn:Hc.
    + rewrite Forall_cons, IH. simpl. unfold isBlank. simpl. tauto.
    + destruct (split 44 s) as [|seg segs]; [done|].
      rewrite Forall_cons in IH. rewrite Forall_cons.
      unfold isBlank in *. simpl.
      rewrite !andb_true_iff, <- IH. tauto.
Qed.

Lemma split_no_comma s : 44 ∉ s → split 44 s = [s].
Proof.
  induction s as [|c s IH]; [done|].
  intros [Hc Hs]%not_elem_of_cons. simpl.
  destruct (N.eqb_spec c 44); [congruence|]. by rewrite (IH Hs).
Qed.

Lemma split_app_comma x rest :
  44 ∉ x → split 44 (x ++ 44 :: rest) = x :: split 44 rest.
Proof.
  induction x as [|c x IH]; [done|].
  intros [Hc Hx]%not_elem_of_cons. simpl.
  destruct (N.eqb_spec c 44); [congruence|]. by rewrite (IH Hx).
Qed.

Lemma filter_nonempty_nil (l : list jsstring) :
  filter (fun i : list N => (0 < length i)%nat) l = [] ↔ Forall (fun i => i = []) l.
Proof.
  induction l as [|x l IH]; [split; [done | constructor]|].
  destruct x as [|c x].
  - rewrite filter_cons_False by (simpl; lia). rewrite IH, Forall_cons. tauto.
  - rewrite filter_cons_True by (simpl; lia). rewrite Forall_cons.
    split; [discriminate | by intros [? _]].
Qed.

Lemma filter_nonempty_all (l : list jsstring) :
  Forall (fun i => i ≠ []) l →
  filter (fun i : list N => (0 < length i)%nat) l = l.
Proof.
  induction 1 as [|x l Hx _ IH]; [done|].
  rewrite filter_cons_True by (destruct x; [done | simpl; lia]).
  by rewrite IH.
Qed.

Lemma trim_split_join pad names :
  names ≠ [] → Forall isClean names → isBlank pad = true → 44 ∉ pad →
  map trim (split 44 (pad ++ join (js ", ") names)) = names.
Proof.
  intros Hne Hclean. revert pad.
  induction Hclean as [|x names Hx Hnames IH]; [done|].
  intros pad Hpad Hcomma.
  destruct Hx as (_ & _ & Hlead & Htrail & Hx).
  assert (Htrim : trim (pad ++ x) = x).
  { unfold trim. rewrite (trimStart_app_blank _ _ Hpad).
    by apply trim_fixed. }
  destruct names as [|y ys].
  - simpl. rewrite split_no_comma.
    + simpl. by rewrite Htrim.
    + rewrite elem_of_app. tauto.
  - change (join (js ", ") (x :: y :: ys))
      with (x ++ 44 :: [32] ++ join (js ", ") (y :: ys)).
    rewrite app_assoc, split_app_comma by (rewrite elem_of_app; tauto).
    rewrite map_cons, Htrim. f_equal.
    apply (IH ltac:(done) [32]); [reflexivity|].
    apply not_elem_of_cons. split; [done | apply not_elem_of_nil].
Qed.

Lemma or_default_nil v : or_default v [] = default [] v.
Proof. by destruct v as [[|c t]|]. Qed.

(** ** More on the ingredient extractor *)

Section ExtractorFurther.

Variable generateContent :
  GenerateContentParameters -> Result GenerateContentResponse.
Variable base64Image : jsstring.
Variable response : GenerateContentResponse.
Hypothesis completed : generateContent (detectRequest base64Image) = Ok response.

(** X1: every name the extractor returns is a contiguous piece of the
    response text: it never adds or rewrites a character. *)
Theorem detectIngredients_names_from_text :
  ∃ names,
    detectIngredientsFromImage generateContent base64Image = Ok names
    ∧ Forall (fun name => Substring name (default [] (text response))) names.
Proof.
  unfold detectIngredientsFromImage. rewrite completed. simpl.
  eexists. split; [reflexivity|]. rewrite or_default_nil.
  apply Forall_forall. intros name [_ Hin]%list_elem_of_filter.
  apply list_elem_of_fmap in Hin as [seg [-> Hseg]].
  eapply Substring_trans; [apply trim_Substring|].
  by eapply split_Substring.
Qed.

(** X2: the extractor returns the empty list exactly when the response text
    (taken as empty when absent) holds nothing but commas and white
    space. *)
Theorem detectIngredients_nil_iff :
  detectIngredientsFromImage generateContent base64Image = Ok []
  ↔ forallb isCommaOrWhiteSpace (default [] (text response)) = true.
Proof.
  unfold detectIngredientsFromImage. rewrite completed. simpl.
  rewrite or_default_nil, <- split_blank.
  split.
  - intros [= Hnil]. apply filter_nonempty_nil in Hnil.
    rewrite Forall_forall in Hnil. apply Forall_forall. intros seg Hseg.
    apply trim_nil, Hnil, list_elem_of_fmap. by exists seg.
  - intros Hblank. f_equal. apply filter_nonempty_nil.
    apply Forall_forall. intros x [seg [-> Hseg]]%list_elem_of_fmap.
    rewrite Forall_forall in Hblank. by apply trim_nil, Hblank.
Qed.

(** X3: the extractor returns at most one name more than the response text
    has commas. *)
Theorem detectIngredients_count :
  ∃ names,
    detectIngredientsFromImage generateContent base64Image = Ok names
    ∧ (length names ≤ S (commas (default [] (text response))))%nat.
Proof.
  unfold detectIngredientsFromImage. rewrite completed. simpl.
  eexists. split; [reflexivity|]. rewrite or_default_nil.
  etrans; [apply length_filter|].
  rewrite length_map, split_length. reflexivity.
Qed.

(** X4: a list of clean names written out with [join(', ')], the way
    [generateRecipes] writes its ingredients into the prompt, is read back
    by the extractor as the same list: same names, same order, duplicates
    kept. *)
Theorem detectIngredients_join_roundtrip names :
  Forall isClean names →
  text response = Some (join (js ", ") names) →
  detectIngredientsFromImage generateContent base64Image = Ok names.
Proof.
  intros Hclean Htext.
  unfold detectIngredientsFromImage. rewrite completed. simpl.
  rewrite Htext, or_default_nil. simpl default. f_equal.
  destruct names as [|x names]; [reflexivity|].
  pose proof (trim_split_join [] (x :: names) ltac:(done) Hclean eq_refl
                (not_elem_of_nil _)) as Hback.
  rewrite app_nil_l in Hback. rewrite Hback.
  apply filter_nonempty_all.
  eapply Forall_impl; [exact Hclean|]. by intros y [Hy _].
Qed.

End ExtractorFurther.

Lemma detectIngredients_names_from_text_witness :
  ∃ names,
    detectIngredientsFromImage
      (answering (textResponse (js " milk, eggs ,, , unsalted butter ")))
      (js "/9j/4AAQ") = Ok names
    ∧ Forall (fun name => Substring name (js " milk, eggs ,, , unsalted butter "))
        names.
Proof.
  apply (detectIngredients_names_from_text
           (answering (textResponse (js " milk, eggs ,, , unsalted butter ")))
           (js "/9j/4AAQ")
           (textResponse (js " milk, eggs ,, , unsalted butter "))).
  reflexivity.
Defined.

Lemma detectIngredients_nil_iff_witness :
  detectIngredientsFromImage (answering (textResponse (js " , ,,  ")))
    (js "/9j/4AAQ") = Ok [].
Proof.
  apply (detectIngredients_nil_iff (answering (textResponse (js " , ,,  ")))
           (js "/9j/4AAQ") (textResponse (js " , ,,  ")) eq_refl).
  reflexivity.
Defined.

Lemma detectIngredients_count_witness :
  ∃ names,
    detectIngredientsFromImage
      (answering (textResponse (js " milk, eggs ,, , unsalted butter ")))
      (js "/9j/4AAQ") = Ok names
    ∧ (length names ≤ 5)%nat.
Proof.
  apply (detectIngredients_count
           (answering (textResponse (js " milk, eggs ,, , unsalted butter ")))
           (js "/9j/4AAQ")
           (textResponse (js " milk, eggs ,, , unsalted butter "))).
  reflexivity.
Defined.

Lemma detectIngredients_join_roundtrip_witness :
  detectIngredientsFromImage
    (answering (textResponse (js "eggs, unsalted butter, eggs")))
    (js "/9j/4AAQ")
  = Ok [js "eggs"; js "unsalted butter"; js "eggs"].
Proof.
  apply (detectIngredients_join_roundtrip
           (answering (textResponse (js "eggs, unsalted butter, eggs")))
           (js "/9j/4AAQ")
           (textResponse (js "eggs, unsalted butter, eggs")) eq_refl
           [js "eggs"; js "unsalted butter"; js "eggs"]).
  - repeat constructor; try discriminate;
      apply (bool_decide_unpack _); vm_compute; exact I.
  - reflexivity.
Defined.

(** ** More on the recipe generator *)

Lemma uint_units_inj u u' : uint_units u = uint_units u' → u = u'.
Proof.
  revert u'. induction u; intros u'; destruct u'; simpl;
    try discriminate; try reflexivity;
    intros [= H]; f_equal; by apply IHu.
Qed.

Lemma index_to_string_inj i j : index_to_string i = index_to_string j → i = j.
Proof.
  unfold index_to_string. intros H%uint_units_inj.
  by apply Unsigned.to_uint_inj.
Qed.

Lemma array_map_Ok_inv {B} (f : JSValue → nat → B) v l :
  array_map f v = Ok l →
  ∃ elems, v = JArray elems ∧ l = imap (fun idx r => f r idx) elems.
Proof. destruct v; simpl; try discriminate. intros [= <-]. by eexists. Qed.

Lemma array_map_not_array {B} (f : JSValue → nat → B) v :
  (∀ elems, v ≠ JArray elems) → array_map f v = Err TypeError.
Proof. intros Hv. destruct v; try reflexivity. by destruct (Hv elems). Qed.

Section GeneratorFurther.

Variable generateContent :
  GenerateContentParameters -> Result GenerateContentResponse.
Variable ingredients : list jsstring.
Variables mode emotion : option jsstring.
Variable tasteProfile : option TasteProfile.
Variable response : GenerateContentResponse.
Hypothesis completed :
  generateContent
    (recipeRequest ingredients (default (js "STANDARD") mode)
       (default (js "COMFORT") emotion) tasteProfile)
  = Ok response.

Lemma generateRecipes_completed :
  generateRecipes generateContent ingredients mode emotion tasteProfile
  = JSON.parse (or_default (text response) (js "[]")) ≫= array_map withId.
Proof. unfold generateRecipes. by rewrite completed. Qed.

Lemma generateRecipes_Ok_inv recipes :
  generateRecipes generateContent ingredients mode emotion tasteProfile
  = Ok recipes →
  ∃ elems,
    JSON.parse (or_default (text response) (js "[]")) = Ok (JArray elems)
    ∧ recipes = imap (fun idx r => withId r idx) elems.
Proof.
  rewrite generateRecipes_completed.
  destruct (JSON.parse _) as [v|e]; [|discriminate].
  intros (elems & -> & ->)%array_map_Ok_inv. by exists elems.
Qed.

(** X5: when the text of the response is JSON but its value is not an
    array (an object that wraps the recipes, a number, a string, [null]),
    the generator fails with a TypeError: the value has no [map] to call. *)
Theorem generateRecipes_not_array t v :
  text response = Some t → JSON.parse t = Ok v → (∀ elems, v ≠ JArray elems) →
  generateRecipes generateContent ingredients mode emotion tasteProfile
  = Err TypeError.
Proof.
  intros Ht Hparse Hv. rewrite generateRecipes_completed, Ht.
  rewrite (or_default_nonempty _ _ (parse_Ok_nonempty _ _ Hparse)), Hparse.
  by apply array_map_not_array.
Qed.

(** X6: the recipes of one answer all have an [id], and no two of them have
    the same one. *)
Theorem generateRecipes_ids_distinct recipes :
  generateRecipes generateContent ingredients mode emotion tasteProfile
  = Ok recipes →
  Forall (fun c : gmap (list N) JSValue => is_Some (c !! js "id")) recipes
  ∧ NoDup (map (fun c : gmap (list N) JSValue => c !! js "id") recipes).
Proof.
  intros (elems & _ & ->)%generateRecipes_Ok_inv. split.
  - apply Forall_forall. intros c Hc.
    apply list_elem_of_lookup in Hc as [i Hi].
    rewrite list_lookup_imap in Hi.
    destruct (elems !! i) as [r|]; [|discriminate].
    injection Hi as <-. rewrite withId_id. by eexists.
  - apply NoDup_alt. intros i j x Hi Hj.
    change (map ?f ?l) with (f <$> l) in Hi, Hj.
    rewrite list_lookup_fmap, list_lookup_imap in Hi, Hj.
    destruct (elems !! i) as [r|]; [|discriminate].
    destruct (elems !! j) as [r'|]; [|discriminate].
    simpl in Hi, Hj. rewrite withId_id in Hi, Hj.
    rewrite <- Hj in Hi. injection Hi as Hi.
    by apply index_to_string_inj.
Qed.

End GeneratorFurther.

Lemma generateRecipes_not_array_witness :
  generateRecipes (answering (textResponse wrappedRecipesText)) [js "eggs"]
    None None None
  = Err TypeError.
Proof.
  apply (generateRecipes_not_array (answering (textResponse wrappedRecipesText))
           [js "eggs"] None None None (textResponse wrappedRecipesText)
           eq_refl wrappedRecipesText
           (JObject {[ js "recipes" := JArray [] ]}) eq_refl).
  - vm_compute. reflexivity.
  - intros elems. discriminate.
Defined.

Lemma generateRecipes_ids_distinct_witness :
  ∃ recipes,
    generateRecipes (answering (textResponse threeRecipesText)) [js "eggs"]
      None None None = Ok recipes
    ∧ NoDup (map (fun c : gmap (list N) JSValue => c !! js "id") recipes).
Proof.
  eexists. split; [vm_compute; reflexivity|].
  apply (generateRecipes_ids_distinct
           (answering (textResponse threeRecipesText))
           [js "eggs"] None None None (textResponse threeRecipesText) eq_refl).
  vm_compute. reflexivity.
Defined.

(** ** The prompt of the recipe generator *)

(** The piece at position [n] of a right-nested concatenation. *)
Tactic Notation "piece" integer(n) :=
  do n apply Substring_app_r; apply Substring_app_l.

(** X7: the prompt [generateRecipes] sends contains, as they are written,
    every ingredient of the caller, the values of [mode] and [emotion], the
    two constraint sentences chosen for them and the personalization
    block. *)
Theorem recipePrompt_contents ingredients mode emotion tasteProfile :
  contents (recipeRequest ingredients mode emotion tasteProfile)
  = ContentsText (recipePrompt ingredients mode emotion tasteProfile)
  ∧ Forall (fun i => Substring i (recipePrompt ingredients mode emotion tasteProfile))
      ingredients
  ∧ Substring mode (recipePrompt ingredients mode emotion tasteProfile)
  ∧ Substring (modeConstraint mode)
      (recipePrompt ingredients mode emotion tasteProfile)
  ∧ Substring emotion (recipePrompt ingredients mode emotion tasteProfile)
  ∧ Substring (emotionConstraint emotion)
      (recipePrompt ingredients mode emotion tasteProfile)
  ∧ Substring (tasteContext tasteProfile)
      (recipePrompt ingredients mode emotion tasteProfile).
Proof.
  split; [reflexivity|]. unfold recipePrompt. repeat split.
  - apply Forall_forall. intros i Hi. piece 1. by apply join_Substring.
  - piece 7. apply Substring_refl.
  - piece 10. apply Substring_refl.
  - piece 14. apply Substring_refl.
  - piece 17. apply Substring_refl.
  - piece 21. apply Substring_refl.
Qed.

(** X8: with a taste profile, the personalization block also contains the
    preferred spice level, every preferred texture and every flavor bias, as
    they are written. *)
Theorem tasteContext_preferences profile :
  Substring (spiceLevel (preferences profile)) (tasteContext (Some profile))
  ∧ Forall (fun e => Substring e (tasteContext (Some profile)))
      (texture (preferences profile))
  ∧ Forall (fun e => Substring e (tasteContext (Some profile)))
      (flavorBias (preferences profile)).
Proof.
  simpl. unfold tasteBlock. repeat split.
  - piece 10. apply Substring_refl.
  - apply Forall_forall. intros e He. piece 13. by apply join_Substring.
  - apply Forall_forall. intros e He. piece 16. by apply join_Substring.
Qed.

(** ** More on the recipe illustrator *)

(** Arithmetic on code units, with division by constants. *)
Ltac units_lia := zify; Z.to_euclidean_division_equations; lia.

Ltac reflect_bounds :=
  repeat match goal with
         | H : (_ && _) = true |- _ => apply andb_prop in H as [? ?]
         | H : (_ || _) = false |- _ => apply orb_false_elim in H as [? ?]
         | H : (_ <=? _) = true |- _ => apply N.leb_le in H
         | H : (_ <=? _) = false |- _ => apply N.leb_gt in H
         | H : (_ <? _) = true |- _ => apply N.ltb_lt in H
         | H : (_ <? _) = false |- _ => apply N.ltb_ge in H
         | H : (_ =? _) = true |- _ => apply N.eqb_eq in H
         | H : (_ =? _) = false |- _ => apply N.eqb_neq in H
         end.

Lemma units_pair_ind (P : jsstring → Prop) :
  P [] → (∀ c rest, P rest → P (tail rest) → P (c :: rest)) → ∀ s, P s.
Proof.
  intros Hnil Hcons s.
  enough (P s ∧ P (tail s)) by tauto.
  induction s as [|c s [IH1 IH2]]; [done|].
  split; [by apply Hcons | exact IH1].
Qed.

Lemma hexDigit_unreserved n : n < 16 → isUnreserved (hexDigit n) = true.
Proof.
  intros Hn. unfold hexDigit, isUnreserved.
  destruct (n <? 10) eqn:E; reflect_bounds.
  - replace ((48 <=? 48 + n) && (48 + n <=? 57)) with true; [by rewrite !orb_true_r|].
    symmetry. apply andb_true_iff. split; apply N.leb_le; lia.
  - replace ((65 <=? 55 + n) && (55 + n <=? 90)) with true; [reflexivity|].
    symmetry. apply andb_true_iff. split; apply N.leb_le; lia.
Qed.

Lemma percent_safe octet : octet < 256 → Forall (fun c => isURLSafe c = true) (percent octet).
Proof.
  intros Ho. unfold percent, isURLSafe. repeat constructor.
  - rewrite hexDigit_unreserved; [reflexivity | units_lia].
  - rewrite hexDigit_unreserved; [reflexivity | units_lia].
Qed.

Lemma utf8_octets cp : cp < 1114112 → Forall (fun o => o < 256) (utf8 cp).
Proof.
  intros Hcp. unfold utf8.
  repeat (case_match; reflect_bounds); repeat constructor; units_lia.
Qed.

Lemma escape_safe cp : cp < 1114112 → Forall (fun c => isURLSafe c = true) (escape cp).
Proof.
  intros Hcp. unfold escape. apply Forall_concat, Forall_forall.
  intros l [o [-> Ho]]%list_elem_of_fmap. apply percent_safe.
  pose proof (utf8_octets cp Hcp) as Hall. rewrite Forall_forall in Hall.
  by apply Hall.
Qed.

Lemma isString_cons c s : isString (c :: s) = true ↔ c < 65536 ∧ isString s = true.
Proof. unfold isString. simpl. rewrite andb_true_iff, N.ltb_lt. tauto. Qed.

Lemma isString_tail s : isString s = true → isString (tail s) = true.
Proof. destruct s; [done|]. by intros [_ ?]%isString_cons. Qed.

Lemma encodeURIComponent_safe s :
  isString s = true → ∀ seed, encodeURIComponent s = Ok seed →
  Forall (fun c => isURLSafe c = true) seed.
Proof.
  induction s as [|c rest IH1 IH2] using units_pair_ind.
  - intros _ seed [= <-]. constructor.
  - intros [Hc Hrest]%isString_cons seed. simpl.
    specialize (IH1 Hrest). specialize (IH2 (isString_tail _ Hrest)).
    destruct (isUnreserved c) eqn:Hu.
    + destruct (encodeURIComponent rest) as [r|]; [|discriminate].
      intros [= <-]. constructor; [|by apply IH1].
      unfold isURLSafe. by rewrite Hu.
    + destruct (isLowSurrogate c) eqn:Hlow; [discriminate|].
      destruct (isHighSurrogate c) eqn:Hhigh.
      * destruct rest as [|d rest']; [discriminate|].
        destruct (isLowSurrogate d) eqn:Hd; [|discriminate].
        simpl in IH2.
        destruct (encodeURIComponent rest') as [r|]; [|discriminate].
        intros [= <-]. apply Forall_app. split; [|by apply IH2].
        apply escape_safe. unfold isHighSurrogate, isLowSurrogate in *.
        reflect_bounds. lia.
      * destruct (encodeURIComponent rest) as [r|]; [|discriminate].
        intros [= <-]. apply Forall_app. split; [|by apply IH1].
        apply escape_safe. lia.
Qed.

Lemma encodeURIComponent_unreserved s :
  forallb isUnreserved s = true → encodeURIComponent s = Ok s.
Proof.
  induction s as [|c s IH]; [reflexivity|].
  simpl. intros [-> Hs]%andb_prop. by rewrite (IH Hs).
Qed.

Lemma scanParts_partData ps ps' :
  map partData ps = map partData ps' → scanParts ps = scanParts ps'.
Proof.
  revert ps'. induction ps as [|p ps IH]; intros [|p' ps']; try discriminate;
    [reflexivity|].
  simpl. intros [= Hp Hps]. unfold partData in Hp.
  destruct (inlineData p) as [b|], (inlineData p') as [b'|];
    try discriminate; simpl in Hp.
  - by injection Hp as ->.
  - by apply IH.
Qed.

Section IllustratorFurther.

Variable generateContent :
  GenerateContentParameters -> Result GenerateContentResponse.
Variable recipeTitle : jsstring.
Variable response : GenerateContentResponse.
Hypothesis completed : generateContent (imageRequest recipeTitle) = Ok response.

Lemma generateRecipeImage_completed :
  generateRecipeImage generateContent recipeTitle
  = match scanParts (firstCandidateParts response) with
    | Some uri => Ok uri
    | None => seed ← encodeURIComponent recipeTitle; Ok (placeholder seed)
    end.
Proof. unfold generateRecipeImage. by rewrite completed. Qed.

(** X9: when the first part with inline data in the first candidate has no
    [data] field, the illustrator still takes it for the image and returns
    [data:image/png;base64,undefined]; it neither looks at later parts nor
    falls back to the placeholder. *)
Theorem generateRecipeImage_missing_data pre p post blob :
  firstCandidateParts response = pre ++ p :: post →
  Forall (fun q => inlineData q = None) pre →
  inlineData p = Some blob → data blob = None →
  generateRecipeImage generateContent recipeTitle
  = Ok (js "data:image/png;base64,undefined").
Proof.
  intros Hparts Hpre Hp Hdata.
  rewrite generateRecipeImage_completed, Hparts, (scanParts_skip _ _ Hpre).
  simpl. by rewrite Hp, Hdata.
Qed.

(** X10: when the first candidate holds no inline data, the illustrator
    fails, with a URIError, exactly when the recipe title has a surrogate
    outside a pair. *)
Theorem generateRecipeImage_URIError_iff :
  Forall (fun q => inlineData q = None) (firstCandidateParts response) →
  (generateRecipeImage generateContent recipeTitle = Err URIError
   ↔ isWellFormed recipeTitle = false)
  ∧ (is_Err (generateRecipeImage generateContent recipeTitle)
     = negb (isWellFormed recipeTitle)).
Proof.
  intros Hnone.
  rewrite generateRecipeImage_completed, (scanParts_none _ Hnone).
  destruct (isWellFormed recipeTitle) eqn:Hwf.
  - destruct (encodeURIComponent_wellFormed _ Hwf) as [seed ->]. simpl.
    split; [split; discriminate | reflexivity].
  - rewrite (encodeURIComponent_malformed _ Hwf). simpl.
    split; [split; reflexivity | reflexivity].
Qed.

(** X11: in the placeholder URL the seed is made of letters, digits, the
    marks [- _ . ! ~ * ' ( )] and the percent sign only: whatever the
    title, it brings no slash, space, question mark or hash into the URL. *)
Theorem generateRecipeImage_placeholder_safe url :
  Forall (fun q => inlineData q = None) (firstCandidateParts response) →
  isString recipeTitle = true →
  generateRecipeImage generateContent recipeTitle = Ok url →
  ∃ seed, url = js "https://picsum.photos/seed/" ++ seed ++ js "/600/600"
          ∧ Forall (fun c => isURLSafe c = true) seed.
Proof.
  intros Hnone Hstr.
  rewrite generateRecipeImage_completed, (scanParts_none _ Hnone).
  destruct (encodeURIComponent recipeTitle) as [seed|] eqn:Hseed; [|discriminate].
  intros [= <-]. exists seed. split; [reflexivity|].
  by eapply encodeURIComponent_safe.
Qed.

(** X12: a title made of unreserved characters only (letters, digits and
    the marks [- _ . ! ~ * ' ( )]) stands unchanged in the placeholder
    URL. *)
Theorem generateRecipeImage_plain_title :
  Forall (fun q => inlineData q = None) (firstCandidateParts response) →
  forallb isUnreserved recipeTitle = true →
  generateRecipeImage generateContent recipeTitle
  = Ok (js "https://picsum.photos/seed/" ++ recipeTitle ++ js "/600/600").
Proof.
  intros Hnone Hplain.
  rewrite generateRecipeImage_completed, (scanParts_none _ Hnone).
  by rewrite (encodeURIComponent_unreserved _ Hplain).
Qed.

(** X13: of the response the illustrator reads only, for each part of the
    first candidate, whether it has inline data and the data: the MIME type
    of the data, the text parts, the response text and the other candidates
    never change the result. *)
Theorem generateRecipeImage_reads_data_only generateContent' response' :
  generateContent' (imageRequest recipeTitle) = Ok response' →
  map partData (firstCandidateParts response')
  = map partData (firstCandidateParts response) →
  generateRecipeImage generateContent' recipeTitle
  = generateRecipeImage generateContent recipeTitle.
Proof.
  intros Hcompleted' Hsame.
  unfold generateRecipeImage. rewrite completed, Hcompleted'. simpl.
  by rewrite (scanParts_partData _ _ Hsame).
Qed.

End IllustratorFurther.

Lemma generateRecipeImage_missing_data_witness :
  generateRecipeImage
    (answering {| text := None;
                  candidates := Some [candidateOf [textPart (js "Here.");
                                                   emptyImagePart;
                                                   imagePart (js "QUJD")]] |})
    (js "Tomato Soup")
  = Ok (js "data:image/png;base64,undefined").
Proof.
  apply (generateRecipeImage_missing_data (answering _) (js "Tomato Soup")
           {| text := None;
              candidates := Some [candidateOf [textPart (js "Here.");
                                               emptyImagePart;
                                               imagePart (js "QUJD")]] |}
           eq_refl
           [textPart (js "Here.")] emptyImagePart [imagePart (js "QUJD")]
           {| mimeType := Some (js "image/png"); data := None |});
    [reflexivity | repeat constructor | reflexivity | reflexivity].
Defined.

Lemma generateRecipeImage_URIError_iff_witness :
  generateRecipeImage (answering imageInSecondCandidate) (js "Soup " ++ [55357])
  = Err URIError.
Proof.
  apply (proj1 (generateRecipeImage_URIError_iff
                  (answering imageInSecondCandidate) (js "Soup " ++ [55357])
                  imageInSecondCandidate eq_refl
                  ltac:(repeat constructor))).
  reflexivity.
Defined.

Lemma generateRecipeImage_placeholder_safe_witness :
  ∃ seed,
    js "https://picsum.photos/seed/Cr%C3%A8me%20br%C3%BBl%C3%A9e%2Fflan/600/600"
    = js "https://picsum.photos/seed/" ++ seed ++ js "/600/600"
    ∧ Forall (fun c => isURLSafe c = true) seed.
Proof.
  apply (generateRecipeImage_placeholder_safe
           (answering imageInSecondCandidate)
           (js "Cr" ++ [232] ++ js "me br" ++ [251] ++ js "l" ++ [233] ++ js "e/flan")
           imageInSecondCandidate eq_refl);
    [repeat constructor | reflexivity | reflexivity].
Defined.

Lemma generateRecipeImage_plain_title_witness :
  generateRecipeImage (answering imageInSecondCandidate) (js "Shakshuka_(v2)")
  = Ok (js "https://picsum.photos/seed/" ++ js "Shakshuka_(v2)" ++ js "/600/600").
Proof.
  apply (generateRecipeImage_plain_title (answering imageInSecondCandidate)
           (js "Shakshuka_(v2)") imageInSecondCandidate eq_refl);
    [repeat constructor | reflexivity].
Defined.

Lemma generateRecipeImage_reads_data_only_witness :
  generateRecipeImage (answering jpegInFirstCandidate) (js "Tomato Soup")
  = generateRecipeImage (answering imagesInFirstCandidate) (js "Tomato Soup").
Proof.
  apply (generateRecipeImage_reads_data_only
           (answering imagesInFirstCandidate) (js "Tomato Soup")
           imagesInFirstCandidate eq_refl
           (answering jpegInFirstCandidate) jpegInFirstCandidate eq_refl).
  reflexivity.
Defined.

(** *** [encodeURIComponent] loses nothing *)

Lemma hexDigit_inj n m : n < 16 → m < 16 → hexDigit n = hexDigit m → n = m.
Proof.
  unfold hexDigit. intros Hn Hm.
  destruct (n <? 10) eqn:En, (m <? 10) eqn:Em; reflect_bounds; lia.
Qed.

Lemma percent_app_inj o o' l l' :
  o < 256 → o' < 256 → percent o ++ l = percent o' ++ l' → o = o' ∧ l = l'.
Proof.
  intros Ho Ho'. unfold percent. simpl. intros [= H1 H2 Hl].
  apply hexDigit_inj in H1; [|units_lia..].
  apply hexDigit_inj in H2; [|units_lia..].
  split; [units_lia | exact Hl].
Qed.

Lemma escape_app cp r :
  escape cp ++ r = foldr (fun o acc => percent o ++ acc) r (utf8 cp).
Proof.
  unfold escape. induction (utf8 cp) as [|o os IH]; [reflexivity|].
  cbn [map concat fold_right]. by rewrite <- app_assoc, IH.
Qed.

Lemma escape_head cp r : ∃ t, escape cp ++ r = 37 :: t.
Proof.
  rewrite escape_app. unfold utf8.
  repeat case_match; simpl; by eexists.
Qed.

(** The escapes are a prefix code on the code points. *)
Lemma escape_app_inj cp cp' r r' :
  cp < 1114112 → cp' < 1114112 →
  escape cp ++ r = escape cp' ++ r' → cp = cp' ∧ r = r'.
Proof.
  intros Hcp Hcp'. rewrite !escape_app. unfold utf8.
  repeat (case_match; reflect_bounds); cbn [fold_right]; intros Heq;
    repeat (apply percent_app_inj in Heq as [? Heq]; [|units_lia..]);
    first [ split; [units_lia | exact Heq] | exfalso; units_lia ].
Qed.

Lemma unreserved_not_percent c : isUnreserved c = true → c ≠ 37.
Proof. intros Hu ->. discriminate Hu. Qed.

Lemma encodeURIComponent_inj s :
  isString s = true → ∀ s' seed,
  isString s' = true →
  encodeURIComponent s = Ok seed → encodeURIComponent s' = Ok seed → s = s'.
Proof.
  induction s as [|c rest IH1 IH2] using units_pair_ind.
  - intros _ s' seed _ [= <-]. destruct s' as [|c' rest']; [reflexivity|].
    simpl.
    destruct (isUnreserved c');
      [destruct (encodeURIComponent rest'); discriminate|].
    destruct (isLowSurrogate c'); [discriminate|].
    destruct (isHighSurrogate c').
    + destruct rest' as [|d' rest'']; [discriminate|].
      destruct (isLowSurrogate d'); [|discriminate].
      destruct (encodeURIComponent rest'') as [r'|]; [|discriminate].
      simpl. destruct (escape_head ((c' - 55296) * 1024 + (d' - 56320) + 65536) r')
        as [t ->]. discriminate.
    + destruct (encodeURIComponent rest') as [r'|]; [|discriminate].
      simpl. destruct (escape_head c' r') as [t ->]. discriminate.
  - intros [Hc Hrest]%isString_cons s' seed Hs'.
    specialize (IH1 Hrest). specialize (IH2 (isString_tail _ Hrest)).
    simpl.
    destruct (isUnreserved c) eqn:Hu.
    { (* an unreserved character *)
      destruct (encodeURIComponent rest) as [r|] eqn:Hr; [|discriminate].
      intros [= <-].
      destruct s' as [|c' rest']; [discriminate|].
      apply isString_cons in Hs' as [Hc' Hrest']. simpl.
      destruct (isUnreserved c') eqn:Hu'.
      - destruct (encodeURIComponent rest') as [r'|] eqn:Hr'; [|discriminate].
        intros [= -> ->]. f_equal. by eapply IH1.
      - destruct (isLowSurrogate c'); [discriminate|].
        destruct (isHighSurrogate c').
        + destruct rest' as [|d' rest'']; [discriminate|].
          destruct (isLowSurrogate d'); [|discriminate].
          destruct (encodeURIComponent rest'') as [r'|]; [|discriminate].
          simpl.
          destruct (escape_head ((c' - 55296) * 1024 + (d' - 56320) + 65536) r')
            as [t ->].
          intros [= <- _]. by destruct (unreserved_not_percent _ Hu).
        + destruct (encodeURIComponent rest') as [r'|]; [|discriminate].
          simpl. destruct (escape_head c' r') as [t ->].
          intros [= <- _]. by destruct (unreserved_not_percent _ Hu). }
    destruct (isLowSurrogate c) eqn:Hlow; [discriminate|].
    destruct (isHighSurrogate c) eqn:Hhigh.
    { (* a surrogate pair *)
      destruct rest as [|d rest0]; [discriminate|].
      destruct (isLowSurrogate d) eqn:Hd; [|discriminate].
      simpl in IH2.
      destruct (encodeURIComponent rest0) as [r|] eqn:Hr; [|discriminate].
      intros [= <-].
      destruct s' as [|c' rest'].
      { simpl.
        destruct (escape_head ((c - 55296) * 1024 + (d - 56320) + 65536) r)
          as [t ->]. discriminate. }
      apply isString_cons in Hs' as [Hc' Hrest']. simpl.
      destruct (isUnreserved c') eqn:Hu'.
      - destruct (encodeURIComponent rest') as [r'|]; [|discriminate].
        destruct (escape_head ((c - 55296) * 1024 + (d - 56320) + 65536) r)
          as [t ->].
        intros [= -> _]. by destruct (unreserved_not_percent _ Hu').
      - destruct (isLowSurrogate c') eqn:Hlow'; [discriminate|].
        destruct (isHighSurrogate c') eqn:Hhigh'.
        + destruct rest' as [|d' rest'']; [discriminate|].
          destruct (isLowSurrogate d') eqn:Hd'; [|discriminate].
          destruct (encodeURIComponent rest'') as [r'|] eqn:Hr'; [|discriminate].
          intros [= Heq]. symmetry in Heq.
          unfold isHighSurrogate, isLowSurrogate in *. reflect_bounds.
          apply escape_app_inj in Heq as [Hcp ->]; [|lia..].
          apply isString_cons in Hrest' as [_ Hrest''].
          rewrite (IH2 rest'' _ Hrest'' eq_refl Hr').
          assert (c = c') as -> by lia. assert (d = d') as -> by lia.
          reflexivity.
        + destruct (encodeURIComponent rest') as [r'|]; [|discriminate].
          intros [= Heq]. symmetry in Heq.
          unfold isHighSurrogate, isLowSurrogate in *. reflect_bounds.
          apply escape_app_inj in Heq as [Hcp _]; lia. }
    (* any other character *)
    destruct (encodeURIComponent rest) as [r|] eqn:Hr; [|discriminate].
    intros [= <-].
    destruct s' as [|c' rest'].
    { simpl. destruct (escape_head c r) as [t ->]. discriminate. }
    apply isString_cons in Hs' as [Hc' Hrest']. simpl.
    destruct (isUnreserved c') eqn:Hu'.
    + destruct (encodeURIComponent rest') as [r'|]; [|discriminate].
      destruct (escape_head c r) as [t ->].
      intros [= -> _]. by destruct (unreserved_not_percent _ Hu').
    + destruct (isLowSurrogate c') eqn:Hlow'; [discriminate|].
      destruct (isHighSurrogate c') eqn:Hhigh'.
      * destruct rest' as [|d' rest'']; [discriminate|].
        destruct (isLowSurrogate d') eqn:Hd'; [|discriminate].
        destruct (encodeURIComponent rest'') as [r'|]; [|discriminate].
        intros [= Heq]. symmetry in Heq.
        unfold isHighSurrogate, isLowSurrogate in *. reflect_bounds.
        apply escape_app_inj in Heq as [Hcp _]; lia.
      * destruct (encodeURIComponent rest') as [r'|] eqn:Hr'; [|discriminate].
        intros [= Heq]. symmetry in Heq.
        apply escape_app_inj in Heq as [-> ->]; [|lia..].
        f_equal. by eapply IH1.
Qed.

Lemma placeholder_inj seed seed' : placeholder seed = placeholder seed' → seed = seed'.
Proof.
  unfold placeholder. intros H%app_inv_head. by apply app_inv_tail in H.
Qed.

(** X14: two different recipe titles never get the same placeholder URL:
    when the illustrator finds no inline data for either of two well-formed
    titles that differ, the two URLs it returns differ. *)
Theorem generateRecipeImage_placeholder_injective
    (generateContent : GenerateContentParameters → Result GenerateContentResponse)
    (recipeTitle recipeTitle' : jsstring)
    (response response' : GenerateContentResponse) :
  generateContent (imageRequest recipeTitle) = Ok response →
  generateContent (imageRequest recipeTitle') = Ok response' →
  Forall (fun q => inlineData q = None) (firstCandidateParts response) →
  Forall (fun q => inlineData q = None) (firstCandidateParts response') →
  isString recipeTitle = true → isString recipeTitle' = true →
  isWellFormed recipeTitle = true → isWellFormed recipeTitle' = true →
  recipeTitle ≠ recipeTitle' →
  generateRecipeImage generateContent recipeTitle
  ≠ generateRecipeImage generateContent recipeTitle'.
Proof.
  intros Hc Hc' Hnone Hnone' Hstr Hstr' Hwf Hwf' Hne.
  rewrite (generateRecipeImage_completed _ _ _ Hc).
  rewrite (generateRecipeImage_completed _ _ _ Hc').
  rewrite (scanParts_none _ Hnone), (scanParts_none _ Hnone').
  destruct (encodeURIComponent_wellFormed _ Hwf) as [seed Hseed].
  destruct (encodeURIComponent_wellFormed _ Hwf') as [seed' Hseed'].
  rewrite Hseed, Hseed'.
  change (Ok (placeholder seed) ≠ Ok (placeholder seed')).
  intros Heq. assert (Hsame : placeholder seed = placeholder seed') by congruence.
  apply placeholder_inj in Hsame. subst seed'.
  apply Hne. by eapply encodeURIComponent_inj.
Qed.

Lemma generateRecipeImage_placeholder_injective_witness :
  generateRecipeImage (answering imageInSecondCandidate) (js "Tomato Soup")
  ≠ generateRecipeImage (answering imageInSecondCandidate) (js "Tomato%20Soup").
Proof.
  apply (generateRecipeImage_placeholder_injective
           (answering imageInSecondCandidate)
           (js "Tomato Soup") (js "Tomato%20Soup")
           imageInSecondCandidate imageInSecondCandidate eq_refl eq_refl);
    [repeat constructor | repeat constructor
     | reflexivity | reflexivity | reflexivity | reflexivity | discriminate].
Defined.

(** ** What [JSON.parse] accepts as an array *)

Lemma lex_blank t : forallb isJSONWhiteSpace t = true → lex t = Some [].
Proof.
  unfold lex. induction t as [|c t IH]; [reflexivity|].
  simpl. intros [Hc Ht]%andb_prop. unfold lex_start.
  unfold isJSONWhiteSpace in Hc. rewrite Hc. by rewrite (IH Ht).
Qed.

Lemma lex_step_inToken st c st' toks :
  inToken st → lex_step st c = Some (st', toks) →
  (toks = [] ∧ inToken st') ∨ (∃ t toks', toks = t :: toks' ∧ t ≠ TLBracket).
Proof.
  intros Hin Hstep. destruct st; simpl in *; [done|..].
  - repeat case_match; simplify_eq; [right; by eexists _, _ | by left..].
  - repeat case_match; simplify_eq; by left.
  - repeat case_match; simplify_eq; by left.
  - repeat case_match; simplify_eq; [by left | right; by eexists _, _].
  - destruct rest as [|x [|y rest']]; repeat case_match; simplify_eq;
      [right; by eexists _, _ | by left].
Qed.

Lemma lex_from_inToken st s ts :
  inToken st → lex_from st s ≠ Some (TLBracket :: ts).
Proof.
  revert st ts. induction s as [|c s IH]; intros st ts Hin.
  - destruct st; simpl; try done. by case_match.
  - simpl. destruct (lex_step st c) as [[st' toks]|] eqn:Hstep; [|done].
    destruct (lex_step_inToken _ _ _ _ Hin Hstep)
      as [[-> Hin'] | (t & toks' & -> & Ht)].
    + specialize (IH st'). destruct (lex_from st' s) as [rest|]; [|done].
      simpl. intros [= ->]. by eapply IH.
    + destruct (lex_from st' s); [|done]. simpl. by intros [= ->].
Qed.

(** A text whose first token is an opening bracket begins, after white
    space, with that bracket. *)
Lemma lex_bracket_first s ts :
  lex s = Some (TLBracket :: ts) →
  ∃ ws rest, s = ws ++ 91 :: rest ∧ forallb isJSONWhiteSpace ws = true.
Proof.
  unfold lex. revert ts. induction s as [|c s IH]; intros ts; [done|].
  cbn [lex_from lex_step].
  destruct (isJSONWhiteSpace c) eqn:Hws.
  - unfold lex_start. unfold isJSONWhiteSpace in Hws. rewrite Hws.
    destruct (lex_from LStart s) as [rest|] eqn:Hrest; [|done].
    simpl. intros [= ->]. destruct (IH ts eq_refl) as (ws & rest' & -> & Hall).
    exists (c :: ws), rest'. split; [reflexivity|].
    simpl. unfold isJSONWhiteSpace at 1. by rewrite Hws.
  - destruct (c =? 91) eqn:Hc.
    + apply N.eqb_eq in Hc as ->. intros _. by exists [], s.
    + destruct (lex_start c) as [[st' toks]|] eqn:Hstart; [|done].
      assert (Hcases : (toks = [] ∧ inToken st')
                       ∨ (∃ t toks', toks = t :: toks' ∧ t ≠ TLBracket)).
      { unfold lex_start in Hstart. unfold isJSONWhiteSpace in Hws.
        rewrite Hws, Hc in Hstart.
        repeat case_match; simplify_eq;
          first [ left; split; [reflexivity | done]
                | right; by eexists _, _ ]. }
      destruct Hcases as [[-> Hin] | (t & toks' & -> & Ht)].
      * pose proof (lex_from_inToken st' s ts Hin) as Hno.
        destruct (lex_from st' s); [|done]. simpl. by intros [= ->].
      * destruct (lex_from st' s); [|done]. simpl. by intros [= ->].
Qed.

Lemma root_cons f stack b : root stack = Some b → root (f :: stack) = Some b.
Proof. simpl. by intros ->. Qed.

Lemma push_value_root v stack b st :
  root stack = Some b → push_value v stack = Some st → rootKept b st.
Proof.
  destruct stack as [|[acc|props [k|]] stack']; simpl; try done;
    intros Hroot [= <-]; exact Hroot.
Qed.

Lemma close_frame_root t stack b st :
  root stack = Some b → close_frame t stack = Some st → rootKept b st.
Proof.
  destruct stack as [|f stack']; [by destruct t|].
  intros Hroot Hclose.
  destruct stack' as [|f' stack''].
  - destruct t, f as [acc|props [k|]]; simpl in *; simplify_eq; done.
  - assert (Hroot' : root (f' :: stack'') = Some b).
    { simpl in *. by destruct (root stack''). }
    destruct t, f as [acc|props [k|]]; try done;
      by eapply push_value_root.
Qed.

Lemma parse_value_token_root t stack b st :
  root stack = Some b → parse_value_token t stack = Some st → rootKept b st.
Proof.
  intros Hroot. destruct t; simpl; try done;
    try (by apply push_value_root);
    intros [= <-]; by apply root_cons.
Qed.

Lemma parse_key_root t stack b st :
  root stack = Some b → parse_key t stack = Some st → rootKept b st.
Proof.
  destruct t; try done. destruct stack as [|[acc|props [k|]] stack']; try done.
  simpl. intros Hroot [= <-]. exact Hroot.
Qed.

Lemma parse_step_root b st t st' :
  rootKept b st → parse_step st t = Some st' → rootKept b st'.
Proof.
  destruct st as [stack mode|v]; [|done]. simpl. intros Hroot.
  destruct mode.
  - by apply parse_value_token_root.
  - destruct t; first [ by apply parse_value_token_root
                      | by apply close_frame_root ].
  - destruct t; first [ by apply parse_key_root | by apply close_frame_root ].
  - by apply parse_key_root.
  - destruct t; try done. by intros [= <-].
  - destruct t, stack as [|[acc|props k] stack'];
      first [ done | by intros [= <-] | by apply close_frame_root ].
Qed.

Lemma parse_tokens_root b st ts v :
  rootKept b st → parse_tokens st ts = Some v → isObjectValue v = b.
Proof.
  revert st. induction ts as [|t ts IH]; intros st Hroot; simpl.
  - destruct st; [done|]. by intros [= <-].
  - destruct (parse_step st t) as [st'|] eqn:Hstep; [|done].
    apply IH. by eapply parse_step_root.
Qed.

Lemma parse_tokens_done v ts v' : parse_tokens (PDone v) ts = Some v' → v' = v.
Proof. destruct ts; simpl; [by intros [= ->] | done]. Qed.

(** A token sequence that reads as an array starts with an opening
    bracket. *)
Lemma parse_tokens_array ts elems :
  parse_tokens (PRun [] EValue) ts = Some (JArray elems) →
  ∃ ts', ts = TLBracket :: ts'.
Proof.
  destruct ts as [|t ts]; [done|]. simpl.
  destruct t; simpl; try done;
    try (by intros ?%parse_tokens_done); [by eexists|].
  intros Hobj. by apply (parse_tokens_root true) in Hobj.
Qed.

Lemma parse_array_bracket_first text elems :
  JSON.parse text = Ok (JArray elems) →
  ∃ ws rest, text = ws ++ 91 :: rest ∧ forallb isJSONWhiteSpace ws = true.
Proof.
  unfold JSON.parse. destruct (lex text) as [ts|] eqn:Hlex; [|done].
  destruct (parse_tokens _ ts) as [v|] eqn:Hparse; [|done].
  intros [= ->]. apply parse_tokens_array in Hparse as [ts' ->].
  by eapply lex_bracket_first.
Qed.

Section GeneratorText.

Variable generateContent :
  GenerateContentParameters -> Result GenerateContentResponse.
Variable ingredients : list jsstring.
Variables mode emotion : option jsstring.
Variable tasteProfile : option TasteProfile.
Variable response : GenerateContentResponse.
Hypothesis completed :
  generateContent
    (recipeRequest ingredients (default (js "STANDARD") mode)
       (default (js "COMFORT") emotion) tasteProfile)
  = Ok response.

(** X15: a response text that is not empty but holds white space only is
    not taken for an empty answer: the generator fails with a
    SyntaxError. *)
Theorem generateRecipes_blank_text t :
  text response = Some t → t ≠ [] → forallb isJSONWhiteSpace t = true →
  generateRecipes generateContent ingredients mode emotion tasteProfile
  = Err SyntaxError.
Proof.
  intros Ht Hne Hblank. unfold generateRecipes. rewrite completed. simpl.
  rewrite Ht, (or_default_nonempty _ _ Hne).
  unfold JSON.parse. by rewrite (lex_blank _ Hblank).
Qed.

(** X16: the generator returns a list only when the response text is
    absent, empty, or begins, after JSON white space at most, with an
    opening bracket: an answer with a preamble or inside a code fence makes
    it fail. *)
Theorem generateRecipes_Ok_bracket recipes :
  generateRecipes generateContent ingredients mode emotion tasteProfile
  = Ok recipes →
  text response = None ∨ text response = Some []
  ∨ ∃ ws rest, text response = Some (ws ++ 91 :: rest)
               ∧ forallb isJSONWhiteSpace ws = true.
Proof.
  unfold generateRecipes. rewrite completed. simpl.
  destruct (text response) as [[|c t]|]; [by right; left | | by left].
  simpl. destruct (JSON.parse (c :: t)) as [v|] eqn:Hparse; [|done].
  intros (elems & -> & _)%array_map_Ok_inv.
  apply parse_array_bracket_first in Hparse as (ws & rest & -> & Hws).
  right; right. by exists ws, rest.
Qed.

End GeneratorText.

Lemma generateRecipes_blank_text_witness :
  generateRecipes (answering (textResponse (js " " ++ LF))) [js "eggs"]
    None None None
  = Err SyntaxError.
Proof.
  apply (generateRecipes_blank_text (answering (textResponse (js " " ++ LF)))
           [js "eggs"] None None None (textResponse (js " " ++ LF)) eq_refl
           (js " " ++ LF) eq_refl);
    [discriminate | reflexivity].
Defined.

Lemma generateRecipes_Ok_bracket_witness :
  text (textResponse (LF ++ threeRecipesText)) = None
  ∨ text (textResponse (LF ++ threeRecipesText)) = Some []
  ∨ ∃ ws rest,
      text (textResponse (LF ++ threeRecipesText)) = Some (ws ++ 91 :: rest)
      ∧ forallb isJSONWhiteSpace ws = true.
Proof.
  eapply (generateRecipes_Ok_bracket
            (answering (textResponse (LF ++ threeRecipesText)))
            [js "eggs"] None None None
            (textResponse (LF ++ threeRecipesText)) eq_refl).
  vm_compute. reflexivity.
Defined.

(** The answer inside a code fence is rejected. *)
Example generateRecipes_fenced :
  generateRecipes (answering (textResponse fencedText)) [js "eggs"]
    None None None
  = Err SyntaxError.
Proof. reflexivity. Qed.
